(** * pictureprocess: the classification, deduplication and placement pipeline

    A shallow embedding of [pkg/dateutil/date_parser.go] and
    [pkg/imagedup/deduplicator.go].

    - Go strings are byte strings ([string]); [uint64] and [int64]
      values are integers in [Z] with the wrap-around written out; Go
      maps are [gmap]s.
    - Everything the program asks of the operating system is answered
      by a [Disk]; a [World] holds one disk per call, so that a file can
      be there at one call and gone at the next, together with what the
      program itself has written (destination files and ledgers).
      Functions that call the operating system live in the state monad
      [M] over [World].
    - A function that can panic returns a [completion].
    - The workers run concurrently and [range] over a map has no fixed
      order: the order in which the files are processed ([arrival]) and
      the order of the copy loop ([iteration]) are parameters.
    - The packages [time], [regexp], [path/filepath], [strings] and
      [encoding/json] are modelled for the arguments the program gives
      them.  [strings.ToLower] reads its argument as UTF-8; the case
      table of package [unicode] above ASCII is a parameter
      ([lower_table]).  A ledger is held as the value that [Decode]
      reads from it; what [Encode] writes is held as it is read back,
      keys in the order of writing and bytes that are not UTF-8
      replaced by U+FFFD ([json_roundtrip]).  Log lines and the
      progress line have no effect on the control flow and are left
      out. *)

From Stdlib Require Import ZArith Lia String Ascii List.
From stdpp Require Import base option list gmap strings sorting.

Local Open Scope string_scope.
Local Open Scope Z_scope.

(** ** Errors and results *)

(** A Go [(T, error)] pair: [Ok] when the error is nil. *)
Inductive result (A : Type) : Type :=
| Ok (a : A)
| Err (msg : string).
Arguments Ok {A} a.
Arguments Err {A} msg.

Definition is_ok {A} (r : result A) : bool :=
  match r with Ok _ => true | Err _ => false end.

(** ** Bytes, digits and decimal numerals *)

Definition byte_of (c : ascii) : Z := Z.of_N (N_of_ascii c).

(** [isDigit] of package [time], on one byte. *)
Definition isDigit (c : ascii) : bool :=
  (48 <=? byte_of c) && (byte_of c <=? 57).

Definition digit_val (c : ascii) : Z := byte_of c - 48.

Definition digit_char (d : Z) : ascii := ascii_of_N (Z.to_N (48 + d)).

(** The decimal digits of a non-negative number, most significant first;
    [fuel] bounds the number of digits. *)
Fixpoint digits_aux (fuel : nat) (n : Z) (acc : string) : string :=
  match fuel with
  | O => acc
  | S fuel' =>
      let acc' := String (digit_char (n mod 10)) acc in
      if n / 10 =? 0 then acc' else digits_aux fuel' (n / 10) acc'
  end.

Definition itoa (n : Z) : string := digits_aux (S (Z.to_nat (Z.log2 n))) n "".

Fixpoint zeros (k : nat) : string :=
  match k with O => "" | S k' => String "0" (zeros k') end.

(** Zero padding on the left up to [width] bytes, as [%03d] and
    [appendInt] do for a non-negative number: longer numerals are kept
    whole. *)
Definition pad (width : nat) (n : Z) : string :=
  let s := itoa n in zeros (width - String.length s) +:+ s.

(** ** Paths and extensions *)

Definition isPathSeparator (c : ascii) : bool := Ascii.eqb c "/".

(** The loop of [filepath.Ext]: walk from the last byte towards the
    first, stop at a path separator, and at the first dot return the
    suffix that starts there.  [seen] is the part of the path already
    walked over. *)
Fixpoint ext_scan (rev_path : list ascii) (seen : string) : string :=
  match rev_path with
  | [] => ""
  | c :: more =>
      if isPathSeparator c then ""
      else if Ascii.eqb c "." then String c seen
      else ext_scan more (String c seen)
  end.

Definition filepath_Ext (path : string) : string :=
  ext_scan (rev (list_ascii_of_string path)) "".

(** [filepath.Base] on a Unix path: drop trailing separators, keep the
    last element; the empty path is ["."], a path of separators only is
    ["/"]. *)
Fixpoint strip_seps (rev_path : list ascii) : list ascii :=
  match rev_path with
  | c :: more => if isPathSeparator c then strip_seps more else rev_path
  | [] => []
  end.

Fixpoint last_elem (rev_path : list ascii) (seen : string) : string :=
  match rev_path with
  | [] => seen
  | c :: more => if isPathSeparator c then seen else last_elem more (String c seen)
  end.

Definition filepath_Base (path : string) : string :=
  if String.eqb path "" then "."
  else
    let b := last_elem (strip_seps (rev (list_ascii_of_string path))) "" in
    if String.eqb b "" then "/" else b.

Definition char_of (b : Z) : ascii := ascii_of_N (Z.to_N b).

(** ** UTF-8, as package [unicode/utf8] reads and writes it *)

Definition RuneError : Z := 65533.

(** The table [first] with [acceptRanges]: for a leading byte, the
    length of its sequence and the range of its second byte; [None] for
    a byte that starts no sequence. *)
Definition lead (b0 : Z) : option (nat * Z * Z) :=
  if (194 <=? b0) && (b0 <=? 223) then Some (2%nat, 128, 191)
  else if b0 =? 224 then Some (3%nat, 160, 191)
  else if (225 <=? b0) && (b0 <=? 236) then Some (3%nat, 128, 191)
  else if b0 =? 237 then Some (3%nat, 128, 159)
  else if (238 <=? b0) && (b0 <=? 239) then Some (3%nat, 128, 191)
  else if b0 =? 240 then Some (4%nat, 144, 191)
  else if (241 <=? b0) && (b0 <=? 243) then Some (4%nat, 128, 191)
  else if b0 =? 244 then Some (4%nat, 128, 143)
  else None.

Definition within (lo hi : Z) (b : option Z) : bool :=
  match b with
  | Some b => (lo <=? b) && (b <=? hi)
  | None => false
  end.

Definition low6 (b : option Z) : Z := Z.land (default 0 b) 63.

(** [utf8.DecodeRuneInString] on a string that starts with the byte
    [b0], followed by [b1], [b2], [b3] where it is that long: the rune
    and its width.  A sequence that is invalid or cut short is
    [RuneError] of width 1. *)
Definition DecodeRune (b0 : Z) (b1 b2 b3 : option Z) : Z * nat :=
  if b0 <? 128 then (b0, 1%nat)
  else
    match lead b0 with
    | None => (RuneError, 1%nat)
    | Some (sz, lo, hi) =>
        if negb (within lo hi b1) then (RuneError, 1%nat)
        else if (sz <=? 2)%nat then
          (Z.lor (Z.shiftl (Z.land b0 31) 6) (low6 b1), 2%nat)
        else if negb (within 128 191 b2) then (RuneError, 1%nat)
        else if (sz <=? 3)%nat then
          (Z.lor (Z.lor (Z.shiftl (Z.land b0 15) 12) (Z.shiftl (low6 b1) 6)) (low6 b2), 3%nat)
        else if negb (within 128 191 b3) then (RuneError, 1%nat)
        else
          (Z.lor (Z.lor (Z.lor (Z.shiftl (Z.land b0 7) 18) (Z.shiftl (low6 b1) 12))
                        (Z.shiftl (low6 b2) 6)) (low6 b3), 4%nat)
    end.

Definition head_byte (s : string) : option Z :=
  match s with String c _ => Some (byte_of c) | EmptyString => None end.

(** The runes of [for _, c := range s]. *)
Fixpoint runes (s : string) : list Z :=
  match s with
  | EmptyString => []
  | String c0 r0 =>
      let r1 := match r0 with String _ r => r | EmptyString => r0 end in
      let r2 := match r1 with String _ r => r | EmptyString => r1 end in
      let r3 := match r2 with String _ r => r | EmptyString => r2 end in
      let '(r, width) := DecodeRune (byte_of c0) (head_byte r0) (head_byte r1) (head_byte r2) in
      r :: match width with
           | 1%nat => runes r0
           | 2%nat => runes r1
           | 3%nat => runes r2
           | _ => runes r3
           end
  end.

(** [utf8.AppendRune]: a surrogate or a value out of range is written
    as [RuneError]. *)
Definition EncodeRune (r : Z) : string :=
  let cont (x : Z) := char_of (Z.lor 128 (Z.land x 63)) in
  let three (r : Z) :=
    String (char_of (Z.lor 224 (Z.shiftr r 12)))
      (String (cont (Z.shiftr r 6)) (String (cont r) "")) in
  if (0 <=? r) && (r <=? 127) then String (char_of r) ""
  else if (0 <=? r) && (r <=? 2047) then
    String (char_of (Z.lor 192 (Z.shiftr r 6))) (String (cont r) "")
  else if (r <? 0) || (1114111 <? r) || ((55296 <=? r) && (r <=? 57343)) then three RuneError
  else if r <=? 65535 then three r
  else
    String (char_of (Z.lor 240 (Z.shiftr r 18)))
      (String (cont (Z.shiftr r 12)) (String (cont (Z.shiftr r 6)) (String (cont r) ""))).

Fixpoint EncodeRunes (rs : list Z) : string :=
  match rs with
  | [] => ""
  | r :: more => EncodeRune r +:+ EncodeRunes more
  end.

(** A rune that is read back from its encoding, whatever follows. *)
Definition reads_back (r : Z) : Prop :=
  forall u, runes (EncodeRune r +:+ u) = r :: runes u.

(** The sequences of two, three and four bytes that [DecodeRune]
    accepts are the encodings of the runes it gives for them. *)
Definition check2 (b0 b1 : Z) : bool :=
  match lead b0 with
  | Some (sz, lo, hi) =>
      if (sz <=? 2)%nat && within lo hi (Some b1) then
        String.eqb (EncodeRune (Z.lor (Z.shiftl (Z.land b0 31) 6) (low6 (Some b1))))
                   (String (char_of b0) (String (char_of b1) ""))
      else true
  | None => true
  end.

Definition check3 (b0 b1 b2 : Z) : bool :=
  match lead b0 with
  | Some (sz, lo, hi) =>
      if negb (sz <=? 2)%nat && (sz <=? 3)%nat && within lo hi (Some b1)
         && within 128 191 (Some b2) then
        String.eqb
          (EncodeRune (Z.lor (Z.lor (Z.shiftl (Z.land b0 15) 12) (Z.shiftl (low6 (Some b1)) 6))
                             (low6 (Some b2))))
          (String (char_of b0) (String (char_of b1) (String (char_of b2) "")))
      else true
  | None => true
  end.

Definition check4 (b0 b1 b2 b3 : Z) : bool :=
  match lead b0 with
  | Some (sz, lo, hi) =>
      if negb (sz <=? 3)%nat && within lo hi (Some b1)
         && within 128 191 (Some b2) && within 128 191 (Some b3) then
        String.eqb
          (EncodeRune (Z.lor (Z.lor (Z.lor (Z.shiftl (Z.land b0 7) 18)
                                           (Z.shiftl (low6 (Some b1)) 12))
                                    (Z.shiftl (low6 (Some b2)) 6)) (low6 (Some b3))))
          (String (char_of b0) (String (char_of b1) (String (char_of b2)
             (String (char_of b3) ""))))
      else true
  | None => true
  end.

(** ** [strings.ToLower] *)

(** The loop of [strings.ToLower] over a string of ASCII bytes: the
    bytes [A-Z] are lowered, the others kept. *)
Definition lower_byte (c : ascii) : ascii :=
  if (65 <=? byte_of c) && (byte_of c <=? 90)
  then ascii_of_N (Z.to_N (byte_of c + 32)) else c.

Fixpoint lower_ascii (s : string) : string :=
  match s with
  | EmptyString => EmptyString
  | String c rest => String (lower_byte c) (lower_ascii rest)
  end.

(** No byte of the string is [utf8.RuneSelf] or above. *)
Fixpoint is_ascii (s : string) : bool :=
  match s with
  | EmptyString => true
  | String c rest => (byte_of c <? 128) && is_ascii rest
  end.

Section Unicode.

(** The case table of package [unicode] above ASCII: the lower-case
    form of a rune greater than [unicode.MaxASCII]. *)
Variable lower_table : Z -> Z.

(** [unicode.ToLower]: ASCII is lowered by arithmetic, the rest by the
    table. *)
Definition unicode_ToLower (r : Z) : Z :=
  if r <=? 127 then (if (65 <=? r) && (r <=? 90) then r + 32 else r)
  else lower_table r.

(** [strings.Map(mapping, s)]: every rune of [s] (an invalid byte is
    [RuneError]) is replaced by its image, written in UTF-8; a negative
    image is dropped. *)
Definition strings_Map (mapping : Z -> Z) (s : string) : string :=
  EncodeRunes (filter (fun r => 0 <= r) (mapping <$> runes s)).

(** [strings.ToLower]: the byte loop for an ASCII string, otherwise
    [Map(unicode.ToLower, s)]. *)
Definition strings_ToLower (s : string) : string :=
  if is_ascii s then lower_ascii s else strings_Map unicode_ToLower s.

(** ** Media classes *)

Definition SupportedImageFormats (ext : string) : bool :=
  bool_decide (ext ∈ [".jpg"; ".jpeg"; ".png"]).

Definition SupportedRawFormats (ext : string) : bool :=
  bool_decide (ext ∈ [".nef"; ".cr2"; ".cr3"; ".arw"; ".rw2"; ".orf"; ".raf";
                      ".pef"; ".dng"; ".raw"; ".kdc"; ".sr2"; ".mos"; ".mrw"]).

Definition SupportedVideoFormats (ext : string) : bool :=
  bool_decide (ext ∈ [".avi"; ".mp4"; ".mkv"; ".mov"]).

Inductive class := Image | Raw | Video | Unsupported.

(** The [if / else if] chain of the worker loop and of the copied
    counters: the first table that holds the lowercased extension. *)
Definition classify (file : string) : class :=
  let ext := strings_ToLower (filepath_Ext file) in
  if SupportedImageFormats ext then Image
  else if SupportedRawFormats ext then Raw
  else if SupportedVideoFormats ext then Video
  else Unsupported.

(** ** Calendar dates: the part of package [time] that the program uses *)

(** A [time.Time] seen through [Format("2006-01-02")]: the civil date in
    the time's own location. *)
Record Time := mkTime { year : Z; month : Z; day : Z }.

(** [appendInt] of package [time]: a sign for a negative number, then
    the numeral padded with zeros up to [width]. *)
Definition appendInt (x : Z) (width : nat) : string :=
  if x <? 0 then String "-" (pad width (- x)) else pad width x.

(** [t.Format("2006-01-02")]. *)
Definition Format_ISO (t : Time) : string :=
  appendInt (year t) 4 +:+ "-" +:+ pad 2 (month t) +:+ "-" +:+ pad 2 (day t).

(** The elements of a layout that [nextStdChunk] finds in the layouts of
    [dateLayouts]; every other byte of those layouts is literal text. *)
Inductive chunk :=
| stdLongYear            (* "2006" *)
| stdYear                (* "06" *)
| stdZeroMonth           (* "01" *)
| stdZeroDay             (* "02" *)
| literal (c : ascii).

(** [nextStdChunk], iterated over a whole layout, for layouts written
    with [2006], [06], [01], [02] and the separators [-] and [/].  A
    layout with any other byte is outside this model ([None]). *)
Fixpoint lex_layout (fuel : nat) (layout : string) : option (list chunk) :=
  match fuel with
  | O => None
  | S fuel' =>
      match layout with
      | EmptyString => Some []
      | String "2" (String "0" (String "0" (String "6" rest))) =>
          cons stdLongYear <$> lex_layout fuel' rest
      | String "0" (String "1" rest) => cons stdZeroMonth <$> lex_layout fuel' rest
      | String "0" (String "2" rest) => cons stdZeroDay <$> lex_layout fuel' rest
      | String "0" (String "6" rest) => cons stdYear <$> lex_layout fuel' rest
      | String "-" rest => cons (literal "-") <$> lex_layout fuel' rest
      | String "/" rest => cons (literal "/") <$> lex_layout fuel' rest
      | _ => None
      end
  end.

(** [leadingInt]: the longest prefix of digits as a number, and the rest. *)
Fixpoint leadingInt (s : string) (acc : Z) : Z * string :=
  match s with
  | String c rest => if isDigit c then leadingInt rest (acc * 10 + digit_val c) else (acc, s)
  | EmptyString => (acc, s)
  end.

(** [atoi] of package [time]: an optional sign, then digits only. *)
Definition atoi (s : string) : option Z :=
  let '(neg, body) :=
    match s with
    | String "-" rest => (true, rest)
    | String "+" rest => (false, rest)
    | _ => (false, s)
    end in
  match leadingInt body 0 with
  | (x, EmptyString) => Some (if neg then - x else x)
  | _ => None
  end.

(** [getnum(s, true)]: exactly two digits. *)
Definition getnum_fixed (s : string) : option (Z * string) :=
  match s with
  | String a (String b rest) =>
      if isDigit a && isDigit b then Some (digit_val a * 10 + digit_val b, rest) else None
  | _ => None
  end.

(** The first [n] bytes of [s] and the rest, when [s] is that long. *)
Fixpoint split_at (n : nat) (s : string) : option (string * string) :=
  match n, s with
  | O, _ => Some ("", s)
  | S n', String c rest =>
      match split_at n' rest with
      | Some (p, q) => Some (String c p, q)
      | None => None
      end
  | S _, EmptyString => None
  end.

Definition isLeap (y : Z) : bool :=
  (y mod 4 =? 0) && (negb (y mod 100 =? 0) || (y mod 400 =? 0)).

Definition daysIn (m y : Z) : Z :=
  if m =? 2 then (if isLeap y then 29 else 28)
  else if (m =? 4) || (m =? 6) || (m =? 9) || (m =? 11) then 30
  else 31.

(** The fields [time.Parse] has read so far; month and day start at -1. *)
Record fields := mkFields { f_year : Z; f_month : Z; f_day : Z }.

(** The loop of [time.Parse] over the chunks of the layout.  Any error
    ([errBad], a range error, extra text) is [None]. *)
Fixpoint parse_chunks (cs : list chunk) (value : string) (f : fields) : option fields :=
  match cs with
  | [] => if String.eqb value "" then Some f else None
  | literal c :: cs' =>
      match value with
      | String c' rest => if Ascii.eqb c c' then parse_chunks cs' rest f else None
      | EmptyString => None
      end
  | stdYear :: cs' =>
      match split_at 2 value with
      | Some (p, rest) =>
          match atoi p with
          | Some y =>
              parse_chunks cs' rest
                (mkFields (if 69 <=? y then y + 1900 else y + 2000) (f_month f) (f_day f))
          | None => None
          end
      | None => None
      end
  | stdLongYear :: cs' =>
      match value with
      | String c0 _ =>
          if isDigit c0 then
            match split_at 4 value with
            | Some (p, rest) =>
                match atoi p with
                | Some y => parse_chunks cs' rest (mkFields y (f_month f) (f_day f))
                | None => None
                end
            | None => None
            end
          else None
      | EmptyString => None
      end
  | stdZeroMonth :: cs' =>
      match getnum_fixed value with
      | Some (m, rest) =>
          if (m <=? 0) || (12 <? m) then None
          else parse_chunks cs' rest (mkFields (f_year f) m (f_day f))
      | None => None
      end
  | stdZeroDay :: cs' =>
      match getnum_fixed value with
      | Some (d, rest) => parse_chunks cs' rest (mkFields (f_year f) (f_month f) d)
      | None => None
      end
  end.

(** [time.Parse(layout, value)]: read the fields, fill a missing month or
    day with 1, then check the day against the length of the month. *)
Definition time_Parse (layout value : string) : result Time :=
  match lex_layout (S (String.length layout)) layout with
  | None => Err "unsupported layout"
  | Some cs =>
      match parse_chunks cs value (mkFields 0 (-1) (-1)) with
      | None => Err "parsing time"
      | Some f =>
          let m := if f_month f <? 0 then 1 else f_month f in
          let d := if f_day f <? 0 then 1 else f_day f in
          if (d <? 1) || (daysIn m (f_year f) <? d) then Err "day out of range"
          else Ok (mkTime (f_year f) m d)
      end
  end.

(** ** The regular expression of [extractDateFromFilename] *)

(** The pattern is an alternation of sequences of [\d{n}] and literal
    bytes. *)
Inductive atom := Digits (n : nat) | Lit (c : ascii).

Definition regex := list (list atom).

(** [(\d{4}-\d{2}-\d{2}|\d{2}/\d{2}/\d{4}|\d{8}|\d{6})] *)
Definition dateRe : regex :=
  [ [Digits 4; Lit "-"; Digits 2; Lit "-"; Digits 2];
    [Digits 2; Lit "/"; Digits 2; Lit "/"; Digits 4];
    [Digits 8];
    [Digits 6] ].

(** [n] digits at the start of [s]: the digits and the rest. *)
Fixpoint take_digits (n : nat) (s : string) : option (string * string) :=
  match n, s with
  | O, _ => Some ("", s)
  | S n', String c rest =>
      if isDigit c then
        match take_digits n' rest with
        | Some (p, q) => Some (String c p, q)
        | None => None
        end
      else None
  | S _, EmptyString => None
  end.

(** One alternative, anchored at the start of [s]: the text it matches. *)
Fixpoint match_seq (atoms : list atom) (s : string) : option string :=
  match atoms with
  | [] => Some ""
  | Digits n :: more =>
      match take_digits n s with
      | Some (p, rest) => String.append p <$> match_seq more rest
      | None => None
      end
  | Lit c :: more =>
      match s with
      | String c' rest => if Ascii.eqb c c' then String c <$> match_seq more rest else None
      | EmptyString => None
      end
  end.

(** The alternatives in order, anchored at the start of [s]: the first
    one that matches wins. *)
Fixpoint match_here (re : regex) (s : string) : option string :=
  match re with
  | [] => None
  | alt :: more =>
      match match_seq alt s with
      | Some m => Some m
      | None => match_here more s
      end
  end.

(** [re.FindStringSubmatch(s)[0]]: the match that starts leftmost. *)
Fixpoint FindString (re : regex) (s : string) : option string :=
  match match_here re s with
  | Some m => Some m
  | None =>
      match s with
      | String _ rest => FindString re rest
      | EmptyString => None
      end
  end.

(** ** [pkg/dateutil/date_parser.go] *)

Definition dateLayouts : list string :=
  ["2006-01-02"; "02-01-2006"; "2006/01/02"; "02/01/2006"; "20060102"; "060102"].

(** The [for _, layout := range dateLayouts] loop: the first layout that
    parses [m] gives the date. *)
Fixpoint try_layouts (layouts : list string) (m : string) : option string :=
  match layouts with
  | [] => None
  | layout :: more =>
      match time_Parse layout m with
      | Ok t => Some (Format_ISO t)
      | Err _ => try_layouts more m
      end
  end.

Definition extractDateFromFilename (filename : string) : result string :=
  match FindString dateRe filename with
  | Some m =>
      match try_layouts dateLayouts m with
      | Some d => Ok d
      | None => Err "no date found in filename"
      end
  | None => Err "no date found in filename"
  end.

(** ** The operating system and the libraries behind it *)

(** [os.FileInfo]: [Size()] is an [int64], [ModTime()] a time. *)
Record FileInfo := mkInfo { Size : Z; ModTime : Time }.

(** What [exif.Decode] gives: [DateTime()] may fail on it. *)
Record Exif := mkExif { DateTime : result Time }.

(** What [imaging.Decode] gives: [goimagehash.AverageHash] may fail on
    it; [GetHash()] is a [uint64]. *)
Record Img := mkImg { AverageHash : result Z }.

(** What can be read from an opened file. *)
Record Content := mkContent {
  image_DecodeConfig : bool;          (* true: no error *)
  imaging_Decode : result Img;
  exif_Decode : result Exif
}.

(** The answers of the operating system at one moment. *)
Record Disk := mkDisk {
  filepath_Walk : string -> result (list string);   (* the regular files under a root *)
  os_Stat : string -> result FileInfo;
  os_Open : string -> result Content;
  os_MkdirAll : string -> bool;                     (* true: no error *)
  os_Create : string -> bool;                       (* true: no error *)
  io_Copy : string -> string -> bool;               (* source, destination; true: no error *)
  os_OpenFile : string -> bool;                     (* O_RDWR|O_CREATE; true: no error *)
  json_Encode_write : string -> bool                (* the write of Encode; true: no error *)
}.

(** What [json.Decoder.Decode] into a [map[string]string] makes of the
    bytes of an [index.json]. *)
Inductive IndexContent :=
| IdxEmpty                               (* no JSON value: Decode returns io.EOF *)
| IdxObject (m : gmap string string)     (* a JSON object that decodes to the map m;
                                            Decode gives valid UTF-8 strings only *)
| IdxNull                                (* the JSON value null: the map becomes nil *)
| IdxCorrupt (raw : string).             (* any other bytes: an error that is not io.EOF *)

(** A file the program has created under the destination. *)
Inductive DestFile :=
| Truncated                  (* created, the copy did not complete *)
| CopyOf (src : string).     (* holds the bytes of [src] *)

(** The state a run works on: the operating system as it answers the
    [clock]-th call, and what the program itself has written. *)
Record World := mkWorld {
  clock : nat;
  disk : nat -> Disk;
  dest : gmap string DestFile;
  ledgers : gmap string IndexContent
}.

Definition M (A : Type) : Type := World -> A * World.

Definition ret {A} (a : A) : M A := fun w => (a, w).

Definition bind {A B} (c : M A) (k : A -> M B) : M B :=
  fun w => let '(a, w') := c w in k a w'.

Notation "x <- c ;; k" := (bind c (fun x => k))
  (at level 100, c at next level, right associativity).

Definition tick (w : World) : World :=
  mkWorld (S (clock w)) (disk w) (dest w) (ledgers w).

(** One call into the operating system. *)
Definition ask {A} (q : Disk -> A) : M A :=
  fun w => (q (disk w (clock w)), tick w).

Definition set_dest (path : string) (f : DestFile) : M unit :=
  fun w => (tt, mkWorld (clock w) (disk w) (<[path := f]> (dest w)) (ledgers w)).

Definition get_ledger (path : string) : M (option IndexContent) :=
  fun w => (ledgers w !! path, w).

Definition set_ledger (path : string) (c : IndexContent) : M unit :=
  fun w => (tt, mkWorld (clock w) (disk w) (dest w) (<[path := c]> (ledgers w))).

(** ** [pkg/dateutil/date_parser.go], continued *)

Definition extractExifDate (filePath : string) : M (result string) :=
  file <- ask (fun d => os_Open d filePath) ;;
  match file with
  | Err e => ret (Err e)
  | Ok file =>
      match exif_Decode file with
      | Err e => ret (Err e)
      | Ok x =>
          match DateTime x with
          | Err e => ret (Err e)
          | Ok date => ret (Ok (Format_ISO date))
          end
      end
  end.

Definition extractFileModTime (filePath : string) : M (result string) :=
  info <- ask (fun d => os_Stat d filePath) ;;
  match info with
  | Err e => ret (Err e)
  | Ok info => ret (Ok (Format_ISO (ModTime info)))
  end.

Definition ExtractDate (filePath filename : string) : M (result string) :=
  r <- extractExifDate filePath ;;
  match r with
  | Ok date => ret (Ok date)
  | Err _ =>
      match extractDateFromFilename filename with
      | Ok date => ret (Ok date)
      | Err _ => extractFileModTime filePath
      end
  end.

(** ** [pkg/imagedup/deduplicator.go] *)

Record imageInfo := mkImageInfo {
  hash : Z;              (* uint64 *)
  filename : string;
  isoDate : string
}.

Definition uint64 (x : Z) : Z := x mod 2 ^ 64.

(** The value [date] is left with when [ExtractDate] returns an error:
    the empty string it returns beside the error. *)
Definition date_of (r : result string) : string :=
  match r with Ok d => d | Err _ => "" end.

Definition extractFileCreationDate (filePath : string) : M (result string) :=
  info <- ask (fun d => os_Stat d filePath) ;;
  match info with
  | Err e => ret (Err e)
  | Ok info => ret (Ok (Format_ISO (ModTime info)))
  end.

(** The three [process...File] functions return the record they send on
    [resultChan], or [None] when they return without sending. *)
Definition processImageFile (filePath : string) : M (option imageInfo) :=
  file <- ask (fun d => os_Open d filePath) ;;
  match file with
  | Err _ => ret None
  | Ok file =>
      if negb (image_DecodeConfig file) then ret None
      else
        match imaging_Decode file with
        | Err _ => ret None
        | Ok img =>
            match AverageHash img with
            | Err _ => ret None
            | Ok h =>
                date <- ExtractDate filePath (filepath_Base filePath) ;;
                match date with
                | Err _ => ret None
                | Ok date => ret (Some (mkImageInfo (uint64 h) filePath date))
                end
            end
        end
  end.

Definition processRawFile (filePath : string) : M (option imageInfo) :=
  info <- ask (fun d => os_Stat d filePath) ;;
  match info with
  | Err _ => ret None
  | Ok info =>
      let fileSize := Size info in
      let hash := uint64 fileSize in
      r <- ExtractDate filePath (filepath_Base filePath) ;;
      date <- match r with
              | Ok d => ret d
              | Err _ =>
                  r' <- extractFileCreationDate filePath ;;
                  match r' with
                  | Ok dateTime => ret dateTime
                  | Err _ => ret (date_of r)
                  end
              end ;;
      ret (Some (mkImageInfo hash filePath date))
  end.

Definition processVideoFile (filePath : string) : M (option imageInfo) :=
  info <- ask (fun d => os_Stat d filePath) ;;
  match info with
  | Err _ => ret None
  | Ok info =>
      let fileSize := Size info in
      let hash := uint64 fileSize in
      r <- ExtractDate filePath (filepath_Base filePath) ;;
      date <- match r with
              | Ok d => ret d
              | Err _ =>
                  r' <- extractFileCreationDate filePath ;;
                  match r' with
                  | Ok dateTime => ret dateTime
                  | Err _ => ret (date_of r)
                  end
              end ;;
      ret (Some (mkImageInfo hash filePath date))
  end.

(** A Go [error] value: [None] is nil. *)
Definition error := option string.

(** A call either returns or panics. *)
Inductive completion (A : Type) : Type :=
| Returns (a : A)
| Panics.
Arguments Returns {A} a.
Arguments Panics {A}.

(** The body of the loop of [filterUniqueFiles] once the size is known:
    a missing key of [hashSizes] reads as 0. *)
Definition filterStep (st : gmap Z imageInfo * gmap Z Z) (fileInfo : imageInfo) (fileSize : Z)
    : gmap Z imageInfo * gmap Z Z :=
  let '(unique, hashSizes) := st in
  if negb (bool_decide (is_Some (unique !! hash fileInfo)))
     || (default 0 (hashSizes !! hash fileInfo) <? fileSize)
  then (<[hash fileInfo := fileInfo]> unique, <[hash fileInfo := fileSize]> hashSizes)
  else st.

(** [for fileInfo := range files]: the error of [os.Stat] is dropped, so
    [info.Size()] on the nil [FileInfo] of a failed call panics. *)
Fixpoint filterLoop (files : list imageInfo) (st : gmap Z imageInfo * gmap Z Z)
    : M (completion (gmap Z imageInfo)) :=
  match files with
  | [] => ret (Returns (fst st))
  | fileInfo :: rest =>
      info <- ask (fun d => os_Stat d (filename fileInfo)) ;;
      match info with
      | Err _ => ret Panics
      | Ok info => filterLoop rest (filterStep st fileInfo (Size info))
      end
  end.

Definition filterUniqueFiles (files : list imageInfo) : M (completion (gmap Z imageInfo)) :=
  filterLoop files (∅, ∅).

(** [os.Create] leaves an empty file behind when [io.Copy] then fails. *)
Definition copyFile (src dst : string) : M error :=
  sourceFile <- ask (fun d => os_Open d src) ;;
  match sourceFile with
  | Err e => ret (Some e)
  | Ok _ =>
      created <- ask (fun d => os_Create d dst) ;;
      if negb created then ret (Some "create")
      else
        _ <- set_dest dst Truncated ;;
        copied <- ask (fun d => io_Copy d src dst) ;;
        if negb copied then ret (Some "copy")
        else _ <- set_dest dst (CopyOf src) ;; ret None
  end.

(** What one iteration of the copy loop did with a record. *)
Inductive attempt :=
| NoDirectory                      (* MkdirAll failed *)
| NoRelPath                        (* filepath.Rel failed *)
| CopyFailed (newFileName : string)
| IndexFailed (newFileName : string)
| Placed (newFileName : string).

(** The name an iteration allocated, if it came that far. *)
Definition allocated (a : attempt) : option string :=
  match a with
  | NoDirectory | NoRelPath => None
  | CopyFailed n | IndexFailed n | Placed n => Some n
  end.

(** The variables the copy loop updates. *)
Record counters := mkCounters {
  dateCounters : gmap string Z;
  imageCopied : Z;
  rawCopied : Z;
  videoCopied : Z
}.

(** The nine [uint64] numbers of the summary. *)
Record Summary := mkSummary {
  s_imageCount : Z; s_imageDuplicates : Z; s_imageCopied : Z;
  s_rawCount : Z; s_rawDuplicates : Z; s_rawCopied : Z;
  s_videoCount : Z; s_videoDuplicates : Z; s_videoCopied : Z
}.

(** How a call of [ProcessFiles] ends.  [Finished] carries the summary
    it prints and, for each unique record in the order of the copy loop,
    what the loop did with it. *)
Inductive Outcome :=
| WalkFailed (e : string)          (* returns the error of filepath.Walk *)
| NoFiles                          (* "No files found for processing.", returns nil *)
| Crashed                          (* a panic, or the deadlock of a pool without workers *)
| Finished (s : Summary) (placement : list (imageInfo * attempt)).

(** [decoder.Decode(&existingData)] on a map made empty: [io.EOF] is
    not treated as an error and leaves the map empty, an object fills
    it, [null] sets it to nil ([None]). *)
Definition json_Decode (c : IndexContent) : result (option (gmap string string)) :=
  match c with
  | IdxEmpty => Ok (Some ∅)
  | IdxObject m => Ok (Some m)
  | IdxNull => Ok None
  | IdxCorrupt _ => Err "decode"
  end.

(** [for k, v := range mapping { existingData[k] = v }]: an assignment
    into a nil map panics. *)
Definition merge_mapping (existingData : option (gmap string string))
    (mapping : gmap string string) : completion (option (gmap string string)) :=
  match existingData with
  | Some m => Returns (Some (mapping ∪ m))
  | None => if bool_decide (mapping = ∅) then Returns None else Panics
  end.

(** What the encoder writes of a string and the decoder reads back:
    the escapes are undone, and every byte that is not part of valid
    UTF-8 comes back as U+FFFD. *)
Definition json_string (s : string) : string := EncodeRunes (runes s).

(** The order in which [Encode] writes the entries of a map: sorted by
    key, byte by byte. *)
Definition key_le (x y : string * string) : Prop := String.leb (fst x) (fst y) = true.

Global Instance key_le_dec : RelDecision key_le :=
  fun x y => decide (String.leb (fst x) (fst y) = true).

(** What [Decode] reads from what [Encode] wrote for a map: the entries
    in the order of writing, keys and values as [json_string] gives
    them, a later entry replacing an earlier one of the same key. *)
Definition json_roundtrip (m : gmap string string) : gmap string string :=
  foldl (fun acc kv => <[json_string (fst kv) := json_string (snd kv)]> acc) ∅
        (merge_sort key_le (map_to_list m)).

(** What [encoder.Encode] writes for a map, as [Decode] reads it. *)
Definition json_Encode (m : option (gmap string string)) : IndexContent :=
  match m with
  | Some m => IdxObject (json_roundtrip m)
  | None => IdxNull
  end.

(** Keys and values that are valid UTF-8, as those of every decoded map
    are. *)
Definition valid_strings (m : gmap string string) : Prop :=
  forall k v, m !! k = Some v -> json_string k = k /\ json_string v = v.

Section Pipeline.

(** [filepath.Join] and [filepath.Rel] of the host. *)
Variable filepath_Join : string -> string -> string.
Variable filepath_Rel : string -> string -> result string.

(** The order in which the workers take the files and send their
    records, and the order in which [range] walks a map: neither is
    fixed by Go. *)
Variable arrival : list string -> list string.
Variable iteration : gmap Z imageInfo -> list imageInfo.

(** [writeIndexJSON]: open or create, decode, merge, truncate, encode.
    The decode error is returned before the file is touched; a failed
    write leaves the truncated file. *)
Definition writeIndexJSON (destPath : string) (mapping : gmap string string)
    : M (completion error) :=
  let indexFile := filepath_Join destPath "index.json" in
  opened <- ask (fun d => os_OpenFile d indexFile) ;;
  if negb opened then ret (Returns (Some "open"))
  else
    before <- get_ledger indexFile ;;
    _ <- match before with
         | None => set_ledger indexFile IdxEmpty      (* O_CREATE *)
         | Some _ => ret tt
         end ;;
    match json_Decode (default IdxEmpty before) with
    | Err e => ret (Returns (Some e))
    | Ok existingData =>
        match merge_mapping existingData mapping with
        | Panics => ret Panics
        | Returns existingData' =>
            _ <- set_ledger indexFile IdxEmpty ;;     (* Seek(0, 0), Truncate(0) *)
            written <- ask (fun d => json_Encode_write d indexFile) ;;
            if written then
              _ <- set_ledger indexFile (json_Encode existingData') ;; ret (Returns None)
            else ret (Returns (Some "write"))
        end
    end.

(** [atomic.AddUint64(&x, 1)] and [x++] on a [uint64]. *)
Definition incr (x : Z) : Z := uint64 (x + 1).

(** The [if / else if] chain after a record is placed. *)
Definition count_copied (c : counters) (file : string) : counters :=
  match classify file with
  | Image => mkCounters (dateCounters c) (incr (imageCopied c)) (rawCopied c) (videoCopied c)
  | Raw => mkCounters (dateCounters c) (imageCopied c) (incr (rawCopied c)) (videoCopied c)
  | Video => mkCounters (dateCounters c) (imageCopied c) (rawCopied c) (incr (videoCopied c))
  | Unsupported => c
  end.

(** One iteration of [for _, fileInfo := range uniqueFiles]; each
    [continue] of the source is a branch that returns early. *)
Definition placeOne (srcDir destDir : string) (c : counters) (fileInfo : imageInfo)
    : M (completion (counters * attempt)) :=
  let dateStr := isoDate fileInfo in
  let destPath := filepath_Join destDir dateStr in
  made <- ask (fun d => os_MkdirAll d destPath) ;;
  if negb made then ret (Returns (c, NoDirectory))
  else
    match filepath_Rel srcDir (filename fileInfo) with
    | Err _ => ret (Returns (c, NoRelPath))
    | Ok relPath =>
        let n := incr (default 0 (dateCounters c !! dateStr)) in
        let c1 := mkCounters (<[dateStr := n]> (dateCounters c))
                    (imageCopied c) (rawCopied c) (videoCopied c) in
        let newFileName := pad 3 n +:+ filepath_Ext (filename fileInfo) in
        let destFile := filepath_Join destPath newFileName in
        err <- copyFile (filename fileInfo) destFile ;;
        match err with
        | Some _ => ret (Returns (c1, CopyFailed newFileName))
        | None =>
            r <- writeIndexJSON destPath {[relPath := newFileName]} ;;
            match r with
            | Panics => ret Panics
            | Returns (Some _) => ret (Returns (c1, IndexFailed newFileName))
            | Returns None => ret (Returns (count_copied c1 (filename fileInfo), Placed newFileName))
            end
        end
    end.

Fixpoint placeLoop (srcDir destDir : string) (files : list imageInfo) (c : counters)
    : M (completion (counters * list (imageInfo * attempt))) :=
  match files with
  | [] => ret (Returns (c, []))
  | fileInfo :: rest =>
      r <- placeOne srcDir destDir c fileInfo ;;
      match r with
      | Panics => ret Panics
      | Returns (c', a) =>
          r' <- placeLoop srcDir destDir rest c' ;;
          match r' with
          | Panics => ret Panics
          | Returns (c'', tr) => ret (Returns (c'', (fileInfo, a) :: tr))
          end
      end
  end.

(** The counters of the workers. *)
Record seen := mkSeen { imageCount : Z; rawCount : Z; videoCount : Z }.

(** The body of [for file := range fileChan]: count the class, then
    process; the record sent, if any, joins the stream. *)
Definition workOne (st : seen * list imageInfo) (file : string) : M (seen * list imageInfo) :=
  let '(n, sent) := st in
  match classify file with
  | Image =>
      r <- processImageFile file ;;
      ret (mkSeen (incr (imageCount n)) (rawCount n) (videoCount n), (sent ++ option_list r)%list)
  | Raw =>
      r <- processRawFile file ;;
      ret (mkSeen (imageCount n) (incr (rawCount n)) (videoCount n), (sent ++ option_list r)%list)
  | Video =>
      r <- processVideoFile file ;;
      ret (mkSeen (imageCount n) (rawCount n) (incr (videoCount n)), (sent ++ option_list r)%list)
  | Unsupported => ret (n, sent)
  end.

Fixpoint workLoop (files : list string) (st : seen * list imageInfo) : M (seen * list imageInfo) :=
  match files with
  | [] => ret st
  | file :: rest => st' <- workOne st file ;; workLoop rest st'
  end.

(** [x - y] on [uint64]. *)
Definition sub64 (x y : Z) : Z := uint64 (x - y).

(** [ProcessFiles].  With no worker the first send on [fileChan] blocks
    for ever, and a negative count panics in [make]: both are [Crashed]. *)
Definition ProcessFiles (srcDir destDir : string) (numWorkers : Z) : M Outcome :=
  walked <- ask (fun d => filepath_Walk d srcDir) ;;
  match walked with
  | Err e => ret (WalkFailed e)
  | Ok fileList =>
      if bool_decide (fileList = []) then ret NoFiles
      else if numWorkers <=? 0 then ret Crashed
      else
        st <- workLoop (arrival fileList) (mkSeen 0 0 0, []) ;;
        let '(n, resultChan) := st in
        u <- filterUniqueFiles resultChan ;;
        match u with
        | Panics => ret Crashed
        | Returns uniqueFiles =>
            r <- placeLoop srcDir destDir (iteration uniqueFiles) (mkCounters ∅ 0 0 0) ;;
            match r with
            | Panics => ret Crashed
            | Returns (c, tr) =>
                ret (Finished
                  (mkSummary
                     (imageCount n) (sub64 (imageCount n) (imageCopied c)) (imageCopied c)
                     (rawCount n) (sub64 (rawCount n) (rawCopied c)) (rawCopied c)
                     (videoCount n) (sub64 (videoCount n) (videoCopied c)) (videoCopied c))
                  tr)
            end
        end
  end.

End Pipeline.

(** ** The functions around the pipeline *)

(** [processFile]: the same [if / else if] chain as in the worker loop,
    without the counters; an unsupported file is logged and nothing is
    sent. *)
Definition processFile (filePath : string) : M (option imageInfo) :=
  let ext := strings_ToLower (filepath_Ext filePath) in
  if SupportedImageFormats ext then processImageFile filePath
  else if SupportedRawFormats ext then processRawFile filePath
  else if SupportedVideoFormats ext then processVideoFile filePath
  else ret None.

Section Command.

Variable filepath_Join : string -> string -> string.
Variable filepath_Rel : string -> string -> result string.
Variable arrival : list string -> list string.
Variable iteration : gmap Z imageInfo -> list imageInfo.

(** [main] of the command, as the exit status of the process: 1 after
    [log.Fatalf], 2 after a panic or a deadlock of the runtime, 0 when
    [main] returns.  [Args] is [os.Args], [NumCPU] is
    [runtime.NumCPU()].  The usage message reads [os.Args[0]], which
    panics on an empty argument vector. *)
Definition main (Args : list string) (NumCPU : Z) : M Z :=
  if (length Args <? 3)%nat then
    match Args with
    | [] => ret 2
    | _ :: _ => ret 1
    end
  else
    let sourceDir := nth 1 Args "" in
    let destDir := nth 2 Args "" in
    out <- ProcessFiles filepath_Join filepath_Rel arrival iteration sourceDir destDir NumCPU ;;
    match out with
    | WalkFailed _ => ret 1
    | Crashed => ret 2
    | NoFiles | Finished _ _ => ret 0
    end.

End Command.

(** ** Concrete disks and worlds, used to run the model *)

(** A stand-in for the case table of package [unicode], used to run
    the model: the Kelvin sign U+212A lowers to [k] and the capital
    A with grave U+00C0 to U+00E0, as in Unicode; every other rune is
    left as it is. *)
Definition demo_table (r : Z) : Z :=
  if r =? 8490 then 107 else if r =? 192 then 224 else r.

(** A disk on which every call fails. *)
Definition no_disk : Disk :=
  mkDisk (fun _ => Err "walk") (fun _ => Err "stat") (fun _ => Err "open")
         (fun _ => false) (fun _ => false) (fun _ _ => false) (fun _ => false) (fun _ => false).

(** A disk that holds the given files and on which every write works. *)
Definition disk_of (root : string) (files : list (string * (FileInfo * Content))) : Disk :=
  let look (p : string) := snd <$> list_find (fun e => bool_decide (fst e = p)) files in
  mkDisk
    (fun r => if String.eqb r root then Ok (fst <$> files) else Err "walk")
    (fun p => match look p with Some e => Ok (fst (snd e)) | None => Err "stat" end)
    (fun p => match look p with Some e => Ok (snd (snd e)) | None => Err "open" end)
    (fun _ => true) (fun _ => true) (fun _ _ => true) (fun _ => true) (fun _ => true).

(** The same disk at every call. *)
Definition steady (d : Disk) : nat -> Disk := fun _ => d.

(** Disk [d] for the first [n] calls, then [d']. *)
Definition switch_at (n : nat) (d d' : Disk) : nat -> Disk :=
  fun t => if (t <? n)%nat then d else d'.

Definition start (ds : nat -> Disk) : World := mkWorld 0 ds ∅ ∅.

(** File contents: no picture and no metadata; a picture with a hash and
    a capture date; a picture with a hash and no metadata. *)
Definition opaque_bytes : Content :=
  mkContent false (Err "format") (Err "exif").

Definition photo (h : Z) (t : Time) : Content :=
  mkContent true (Ok (mkImg (Ok h))) (Ok (mkExif (Ok t))).

Definition bare_photo (h : Z) : Content :=
  mkContent true (Ok (mkImg (Ok h))) (Err "exif").

Definition simple_Join (a b : string) : string :=
  if String.eqb b "" then a else a +:+ "/" +:+ b.

Fixpoint strip_prefix (p s : string) : option string :=
  match p, s with
  | EmptyString, _ => Some s
  | String a p', String b s' => if Ascii.eqb a b then strip_prefix p' s' else None
  | String _ _, EmptyString => None
  end.

Definition simple_Rel (base target : string) : result string :=
  match strip_prefix (base +:+ "/") target with
  | Some r => Ok r
  | None => Err "Rel: can't make relative"
  end.

Definition in_order (l : list string) : list string := l.

Definition by_key (m : gmap Z imageInfo) : list imageInfo := snd <$> map_to_list m.

(** The first success of a chain of attempts, and the result of the
    last resort when they all fail. *)
Fixpoint first_ok {A} (attempts : list (result A)) (last_resort : result A) : result A :=
  match attempts with
  | [] => last_resort
  | Ok a :: _ => Ok a
  | Err _ :: more => first_ok more last_resort
  end.

(** What every text matched by [dateRe] has in common: its third byte
    is a digit or a slash, its fifth byte a digit or a dash. *)
Definition date_shaped (m : string) : Prop :=
  exists c3 c5,
    String.get 2 m = Some c3 /\ (isDigit c3 = true \/ c3 = "/"%char)
    /\ String.get 4 m = Some c5 /\ (isDigit c5 = true \/ c5 = "-"%char).

(** The size [os.Stat] reports for the file of a record on disk [d]. *)
Definition size_on (d : Disk) (r : imageInfo) : Z :=
  match os_Stat d (filename r) with
  | Ok info => Size info
  | Err _ => 0
  end.

(** [k] is, among the records of [files] with its fingerprint, the first
    one of the largest size: strictly larger than those before it, at
    least as large as those after it. *)
Definition first_largest (size : imageInfo -> Z) (files : list imageInfo) (k : imageInfo) : Prop :=
  exists pre post : list imageInfo,
    files = (pre ++ k :: post)%list
    /\ (forall r, r ∈ pre -> hash r = hash k -> size r < size k)
    /\ (forall r, r ∈ post -> hash r = hash k -> size r <= size k).

(** The loop of [filterUniqueFiles] when the sizes are given by a
    function. *)
Definition filterPure (size : imageInfo -> Z) (files : list imageInfo)
    (st : gmap Z imageInfo * gmap Z Z) : gmap Z imageInfo * gmap Z Z :=
  foldl (fun st r => filterStep st r (size r)) st files.

(** [processRawFile] or [processVideoFile] sends [r] for [filePath]. *)
Definition size_fingerprinted (filePath : string) (w : World) (r : imageInfo) : Prop :=
  fst (processRawFile filePath w) = Some r \/ fst (processVideoFile filePath w) = Some r.

(** A raw file and a video that can be read at the first call and are
    gone afterwards, and a picture with the same fate. *)
Definition fleeting_disk : nat -> Disk :=
  switch_at 1
    (disk_of "src" [("src/shot.nef", (mkInfo 4096 (mkTime 2020 5 17), opaque_bytes));
                    ("src/clip.mp4", (mkInfo 8192 (mkTime 2020 5 17), opaque_bytes));
                    ("src/pic.jpg", (mkInfo 1024 (mkTime 2020 5 17), bare_photo 77))])
    no_disk.

(** Whatever the sizes and whatever the disk does, the map holds each
    record under its own fingerprint, and only records of the stream. *)
Definition keyed_within (files : list imageInfo) (unique : gmap Z imageInfo) : Prop :=
  forall h k, unique !! h = Some k -> hash k = h /\ k ∈ files.

(** The invariant of the fold: fingerprints without a record are those
    that have not occurred; a stored record is the first of the largest
    records with its fingerprint, and [hashSizes] holds its size. *)
Definition reducer_inv (size : imageInfo -> Z) (seen_so_far : list imageInfo)
    (st : gmap Z imageInfo * gmap Z Z) : Prop :=
  (forall h, fst st !! h = None -> forall r, r ∈ seen_so_far -> hash r <> h)
  /\ (forall h k, fst st !! h = Some k ->
        hash k = h /\ snd st !! h = Some (size k) /\ first_largest size seen_so_far k).

Global Instance class_eq_dec : EqDecision class.
Proof. solve_decision. Defined.

(** How many files of a list belong to a class. *)
Definition count_class (c : class) (files : list string) : nat :=
  length (filter (fun f => classify f = c) files).

(** The worker counters after one more file. *)
Definition seen_after (n : seen) (file : string) : seen :=
  match classify file with
  | Image => mkSeen (incr (imageCount n)) (rawCount n) (videoCount n)
  | Raw => mkSeen (imageCount n) (incr (rawCount n)) (videoCount n)
  | Video => mkSeen (imageCount n) (rawCount n) (incr (videoCount n))
  | Unsupported => n
  end.

(** The number and the name the copy loop allocates for a record, and
    the counters after the allocation. *)
Definition next_number (c : counters) (fileInfo : imageInfo) : Z :=
  incr (default 0 (dateCounters c !! isoDate fileInfo)).

Definition name_for (c : counters) (fileInfo : imageInfo) : string :=
  pad 3 (next_number c fileInfo) +:+ filepath_Ext (filename fileInfo).

Definition bump (c : counters) (fileInfo : imageInfo) : counters :=
  mkCounters (<[isoDate fileInfo := next_number c fileInfo]> (dateCounters c))
             (imageCopied c) (rawCopied c) (videoCopied c).

(** The counters after an iteration that ended in [a]. *)
Definition after (c : counters) (fileInfo : imageInfo) (a : attempt) : counters :=
  match a with
  | NoDirectory | NoRelPath => c
  | CopyFailed _ | IndexFailed _ => bump c fileInfo
  | Placed _ => count_copied (bump c fileInfo) (filename fileInfo)
  end.

Fixpoint replay (c : counters) (tr : list (imageInfo * attempt)) : counters :=
  match tr with
  | [] => c
  | (fileInfo, a) :: tr' => replay (after c fileInfo a) tr'
  end.

(** Every name of the trace is the one the counters of its moment give. *)
Fixpoint names_follow (c : counters) (tr : list (imageInfo * attempt)) : Prop :=
  match tr with
  | [] => True
  | (fileInfo, a) :: tr' =>
      (forall name, allocated a = Some name -> name = name_for c fileInfo)
      /\ names_follow (after c fileInfo a) tr'
  end.

Definition is_placed (a : attempt) : bool :=
  match a with Placed _ => true | _ => false end.

(** The iterations of a trace that allocated a name in the directory of
    date [d], and those that placed a file there. *)
Definition allocations_in (d : string) (tr : list (imageInfo * attempt))
    : list (imageInfo * attempt) :=
  filter (fun x => isoDate (fst x) = d /\ is_Some (allocated (snd x))) tr.

Definition placed_in (d : string) (tr : list (imageInfo * attempt)) : list string :=
  omap (fun x => if bool_decide (isoDate (fst x) = d) && is_placed (snd x)
                 then allocated (snd x) else None) tr.

(** How many iterations of a trace placed a file of class [cls]. *)
Definition placed_count (cls : class) (tr : list (imageInfo * attempt)) : nat :=
  length (filter (fun x => is_placed (snd x) = true /\ classify (filename (fst x)) = cls) tr).

(** The names 001, 002, ... with the given extensions. *)
Definition numbered (exts : list string) : list string :=
  imap (fun i e => pad 3 (Z.of_nat i + 1) +:+ e) exts.

(** All counters of a summary are in the range of [uint64], and each
    class has [copied <= seen] and [duplicates = seen - copied]. *)
Definition summary_consistent (s : Summary) : Prop :=
  (0 <= s_imageCopied s <= s_imageCount s
   /\ s_imageDuplicates s = s_imageCount s - s_imageCopied s /\ s_imageCount s < 2 ^ 64)
  /\ (0 <= s_rawCopied s <= s_rawCount s
      /\ s_rawDuplicates s = s_rawCount s - s_rawCopied s /\ s_rawCount s < 2 ^ 64)
  /\ (0 <= s_videoCopied s <= s_videoCount s
      /\ s_videoDuplicates s = s_videoCount s - s_videoCopied s /\ s_videoCount s < 2 ^ 64).

(** A source tree: two copies of one picture, a third picture with an
    upper-case extension, two videos of one size, an empty file named
    as a picture, and a text file. *)
Definition demo_files : list (string * (FileInfo * Content)) :=
  [("src/img1.jpg", (mkInfo 100 (mkTime 2020 1 1), photo 7 (mkTime 2022 3 4)));
   ("src/img2.jpg", (mkInfo 100 (mkTime 2020 1 1), photo 7 (mkTime 2022 3 4)));
   ("src/sub/IMG_0003.JPG", (mkInfo 300 (mkTime 2020 1 1), photo 9 (mkTime 2022 3 4)));
   ("src/a.mp4", (mkInfo 5000 (mkTime 2021 7 8), opaque_bytes));
   ("src/b.mp4", (mkInfo 5000 (mkTime 2021 7 9), opaque_bytes));
   ("src/zero.png", (mkInfo 0 (mkTime 2021 7 9), opaque_bytes));
   ("src/notes.txt", (mkInfo 12 (mkTime 2021 7 9), opaque_bytes))].

Definition demo_disk : Disk := disk_of "src" demo_files.

Definition demo_world : World := start (steady demo_disk).

(** The same tree on a disk that refuses to create one destination
    file. *)
Definition flaky_disk : Disk :=
  mkDisk (filepath_Walk demo_disk) (os_Stat demo_disk) (os_Open demo_disk)
         (os_MkdirAll demo_disk)
         (fun p => negb (String.eqb p "dst/2022-03-04/001.jpg"))
         (io_Copy demo_disk) (os_OpenFile demo_disk) (json_Encode_write demo_disk).

Definition flaky_world : World := start (steady flaky_disk).

(** A stream of three records: two with one fingerprint, of sizes 100
    and 300, and one of another fingerprint. *)
Definition demo_stream : list imageInfo :=
  [ mkImageInfo 7 "src/img1.jpg" "2022-03-04";
    mkImageInfo 7 "src/sub/IMG_0003.JPG" "2022-03-04";
    mkImageInfo 5000 "src/a.mp4" "2021-07-08" ].

(** A world whose ledger of 2022-03-04 holds one entry, and one whose
    ledger does not decode. *)
Definition ledger_world (c : IndexContent) : World :=
  mkWorld 0 (steady demo_disk) ∅ {[ "dst/2022-03-04/index.json" := c ]}.

Definition seen_in_range (n : seen) : Prop :=
  0 <= imageCount n < 2 ^ 64 /\ 0 <= rawCount n < 2 ^ 64 /\ 0 <= videoCount n < 2 ^ 64.

Definition copied_in_range (c : counters) : Prop :=
  0 <= imageCopied c < 2 ^ 64 /\ 0 <= rawCopied c < 2 ^ 64 /\ 0 <= videoCopied c < 2 ^ 64.

(** The reading of "consecutive names without gaps": in every date
    directory the files placed are named 001, 002, ... in the order in
    which they were placed. *)
Definition placed_without_gaps (tr : list (imageInfo * attempt)) : Prop :=
  forall d, exists exts, placed_in d tr = numbered exts.

(** A byte string with a decimal digit in it. *)
Fixpoint has_digit (s : string) : bool :=
  match s with
  | EmptyString => false
  | String c rest => isDigit c || has_digit rest
  end.

(** A date of the calendar: a month of the year and a day of that
    month. *)
Definition valid_date (t : Time) : Prop :=
  1 <= month t <= 12 /\ 1 <= day t <= daysIn (month t) (year t).

(** The month field of [time.Parse] is unset or a month of the year. *)
Definition month_read (f : fields) : Prop := f_month f = -1 \/ 1 <= f_month f <= 12.

(** The checks behind the shape of an ISO date: [pad 4 y] is four
    digits that read as [y], [pad 2 n] two digits that read as [n]. *)
Definition four_digits (y : Z) : bool :=
  match pad 4 y with
  | String a (String b (String c (String d EmptyString))) =>
      isDigit a && isDigit b && isDigit c && isDigit d
      && (((digit_val a * 10 + digit_val b) * 10 + digit_val c) * 10 + digit_val d =? y)
  | _ => false
  end.

Definition two_digits (n : Z) : bool :=
  match pad 2 n with
  | String a (String b EmptyString) =>
      isDigit a && isDigit b && (digit_val a * 10 + digit_val b =? n)
  | _ => false
  end.

(** The fingerprints of a stream. *)
Definition fingerprints (files : list imageInfo) : gset Z := list_to_set (hash <$> files).

(** No two different records of the stream have both the same
    fingerprint and the same size. *)
Definition no_ties (size : imageInfo -> Z) (files : list imageInfo) : Prop :=
  forall r r', r ∈ files -> r' ∈ files -> hash r = hash r' -> size r = size r' -> r = r'.

(** * Properties *)

(** ** The helpers at work *)

Example Ext_keeps_case : filepath_Ext "a/b.c/IMG_0001.JPG" = ".JPG". Proof. reflexivity. Qed.
Example Ext_stops_at_separator : filepath_Ext "a/b.c/noext" = "". Proof. reflexivity. Qed.
Example Base_drops_trailing_separators : filepath_Base "a/b.c/IMG_0001.JPG//" = "IMG_0001.JPG". Proof. reflexivity. Qed.
Example pad_examples : pad 3 7 = "007" /\ pad 3 1234 = "1234" /\ pad 2 0 = "00". Proof. repeat split; reflexivity. Qed.
Example filename_date_compact : extractDateFromFilename "IMG_20200101_1234.jpg" = Ok "2020-01-01". Proof. reflexivity. Qed.
Example filename_date_iso : extractDateFromFilename "holiday 2019-07-04.png" = Ok "2019-07-04". Proof. reflexivity. Qed.
Example filename_date_two_digit_year : extractDateFromFilename "scan_991231.png" = Ok "1999-12-31". Proof. reflexivity. Qed.
Example filename_date_slashes : extractDateFromFilename "25/12/2020" = Ok "2020-12-25". Proof. reflexivity. Qed.
Example filename_date_day_first_dashes : extractDateFromFilename "25-12-2020.jpg" = Err "no date found in filename". Proof. reflexivity. Qed.
Example filename_date_year_first_slashes : extractDateFromFilename "2020/12/25" = Err "no date found in filename". Proof. reflexivity. Qed.
Example layout_day_first_parses : time_Parse "02-01-2006" "25-12-2020" = Ok (mkTime 2020 12 25). Proof. reflexivity. Qed.
Example layout_year_slash_parses : time_Parse "2006/01/02" "2020/12/25" = Ok (mkTime 2020 12 25). Proof. reflexivity. Qed.
Example filename_date_invalid_month : extractDateFromFilename "IMG_20201301.jpg" = Err "no date found in filename". Proof. reflexivity. Qed.
Example filename_date_invalid_day : extractDateFromFilename "20210229.jpg" = Err "no date found in filename". Proof. reflexivity. Qed.

(** ** The monad *)

Ltac run := unfold bind, ask, ret, get_ledger, set_ledger, set_dest in *; simpl in *.

Lemma extractExifDate_world filePath w : snd (extractExifDate filePath w) = tick w.
Proof.
  unfold extractExifDate; run.
  destruct (os_Open _ filePath) as [c|]; [|reflexivity].
  destruct (exif_Decode c) as [x|]; [|reflexivity].
  destruct (DateTime x); reflexivity.
Qed.

Lemma extractFileModTime_world filePath w : snd (extractFileModTime filePath w) = tick w.
Proof.
  unfold extractFileModTime; run.
  destruct (os_Stat _ filePath); reflexivity.
Qed.

(** ** C2: the three tiers of [ExtractDate] *)

(** C2.  [ExtractDate] returns the first success among the metadata
    date, the filename date and the modification time, asked in this
    order (the modification time is asked only after the other two have
    failed, on the disk as it is then); and when the metadata of the file
    hold a timestamp, that date is returned whatever the filename is. *)
Theorem ExtractDate_first_tier_that_succeeds (filePath filename : string) (w : World) :
  fst (ExtractDate filePath filename w)
  = first_ok [ fst (extractExifDate filePath w); extractDateFromFilename filename ]
             (fst (extractFileModTime filePath (tick w)))
  /\ (forall c x t,
        os_Open (disk w (clock w)) filePath = Ok c ->
        exif_Decode c = Ok x ->
        DateTime x = Ok t ->
        ExtractDate filePath filename w = (Ok (Format_ISO t), tick w))
  /\ (forall e date,
        fst (extractExifDate filePath w) = Err e ->
        extractDateFromFilename filename = Ok date ->
        ExtractDate filePath filename w = (Ok date, tick w)).
Proof.
  split; [|split].
  - unfold ExtractDate, bind.
    pose proof (extractExifDate_world filePath w) as Hw.
    destruct (extractExifDate filePath w) as [r w1]; simpl in *; subst w1.
    destruct r as [date|e]; [reflexivity|].
    destruct (extractDateFromFilename filename); reflexivity.
  - intros c x t Hopen Hexif Hdate.
    unfold ExtractDate, extractExifDate; run.
    rewrite Hopen, Hexif, Hdate. reflexivity.
  - intros e date Hexif Hname.
    unfold ExtractDate, bind.
    pose proof (extractExifDate_world filePath w) as Hw.
    destruct (extractExifDate filePath w) as [r w1]; simpl in *; subst.
    rewrite Hname. reflexivity.
Qed.

(** The scenario of the specification: metadata of 2021-06-01 and a
    filename with 20200101. *)
Example ExtractDate_metadata_wins :
  let d := disk_of "src" [("src/IMG_20200101.jpg",
                           (mkInfo 10 (mkTime 2019 3 4), photo 5 (mkTime 2021 6 1)))] in
  fst (ExtractDate "src/IMG_20200101.jpg" "IMG_20200101.jpg" (start (steady d)))
  = Ok "2021-06-01"
  /\ extractDateFromFilename "IMG_20200101.jpg" = Ok "2020-01-01".
Proof. split; reflexivity. Qed.


(** ** C4: dates in filenames *)

(** C4.  The layouts [02-01-2006] and [2006/01/02] of [dateLayouts] parse
    the dates 25-12-2020 and 2020/12/25, but no alternative of the
    regular expression matches text of these two shapes, so a filename
    that holds only such a date yields the error of
    [extractDateFromFilename]; the other four shapes resolve. *)
Theorem extractDateFromFilename_two_layouts_unreachable :
  time_Parse "02-01-2006" "25-12-2020" = Ok (mkTime 2020 12 25)
  /\ FindString dateRe "trip_25-12-2020.jpg" = None
  /\ extractDateFromFilename "trip_25-12-2020.jpg" = Err "no date found in filename"
  /\ time_Parse "2006/01/02" "2020/12/25" = Ok (mkTime 2020 12 25)
  /\ FindString dateRe "2020/12/25" = None
  /\ extractDateFromFilename "2020/12/25" = Err "no date found in filename"
  /\ extractDateFromFilename "trip_2020-12-25.jpg" = Ok "2020-12-25"
  /\ extractDateFromFilename "25/12/2020" = Ok "2020-12-25"
  /\ extractDateFromFilename "trip_20201225.jpg" = Ok "2020-12-25"
  /\ extractDateFromFilename "trip_201225.jpg" = Ok "2020-12-25".
Proof. repeat split; reflexivity. Qed.

(** *** The two layouts that no match can reach *)

Ltac split_case H :=
  match type of H with
  | context [match ?s with EmptyString => _ | String _ _ => _ end] =>
      is_var s; destruct s; cbn -[Ascii.eqb isDigit] in H; try discriminate H
  | context [if isDigit ?c then _ else _] =>
      let E := fresh "Hd" in
      destruct (isDigit c) eqn:E; cbn -[Ascii.eqb isDigit] in H; try discriminate H
  | context [if Ascii.eqb ?a ?c then _ else _] =>
      let E := fresh "He" in
      destruct (Ascii.eqb a c) eqn:E; cbn -[Ascii.eqb isDigit] in H; try discriminate H
  end.

Lemma match_here_date_shaped (s m : string) :
  match_here dateRe s = Some m -> date_shaped m.
Proof.
  intros H. unfold dateRe in H. cbn -[Ascii.eqb isDigit] in H.
  repeat split_case H.
  all: injection H as <-; cbn.
  all: repeat match goal with
              | He : Ascii.eqb _ _ = true |- _ => apply Ascii.eqb_eq in He; subst
              end.
  all: eexists _, _; split; [reflexivity|]; split; [eauto|]; split; [reflexivity|]; eauto.
Qed.

Lemma FindString_match_here (re : regex) (s m : string) :
  FindString re s = Some m -> exists s', match_here re s' = Some m.
Proof.
  induction s as [|c s IH]; simpl.
  - destruct (match_here re "") eqn:E; [|discriminate]. intros [= <-]. eauto.
  - destruct (match_here re (String c s)) eqn:E; [intros [= <-]; eauto|]. exact IH.
Qed.

Lemma parse_day_first_needs_dash (m : string) (t : Time) :
  time_Parse "02-01-2006" m = Ok t -> String.get 2 m = Some "-"%char.
Proof.
  unfold time_Parse. cbn -[parse_chunks].
  destruct (parse_chunks _ m _) as [f|] eqn:H; [intros _|discriminate].
  destruct m as [|a [|b [|c m]]]; cbn -[Ascii.eqb isDigit] in H; try discriminate H.
  - destruct (isDigit a && isDigit b); discriminate H.
  - destruct (isDigit a && isDigit b); [|discriminate H].
    destruct (Ascii.eqb "-" c) eqn:He; [|discriminate H].
    apply Ascii.eqb_eq in He. by subst.
Qed.

Lemma parse_year_slash_needs_slash (m : string) (t : Time) :
  time_Parse "2006/01/02" m = Ok t -> String.get 4 m = Some "/"%char.
Proof.
  unfold time_Parse. cbn -[parse_chunks].
  destruct (parse_chunks _ m _) as [f|] eqn:H; [intros _|discriminate].
  destruct m as [|a [|b [|c [|d [|e m]]]]]; cbn -[Ascii.eqb isDigit atoi] in H;
    try discriminate H;
    destruct (isDigit a); try discriminate H;
    destruct (atoi _); try discriminate H.
  destruct (Ascii.eqb "/" e) eqn:He; [|discriminate H].
  apply Ascii.eqb_eq in He. by subst.
Qed.

(** Whatever the filename, the text the regular expression finds in it
    is parsed neither by [02-01-2006] nor by [2006/01/02]. *)
Lemma two_layouts_never_parse (filename m : string) :
  FindString dateRe filename = Some m ->
  is_ok (time_Parse "02-01-2006" m) = false /\ is_ok (time_Parse "2006/01/02" m) = false.
Proof.
  intros Hfind. apply FindString_match_here in Hfind as [s' Hm].
  apply match_here_date_shaped in Hm as (c3 & c5 & H3 & Hc3 & H5 & Hc5).
  split.
  - destruct (time_Parse "02-01-2006" m) as [t|] eqn:Hp; [|done].
    apply parse_day_first_needs_dash in Hp. rewrite H3 in Hp. injection Hp as ->.
    destruct Hc3 as [Hc3|Hc3]; discriminate Hc3.
  - destruct (time_Parse "2006/01/02" m) as [t|] eqn:Hp; [|done].
    apply parse_year_slash_needs_slash in Hp. rewrite H5 in Hp. injection Hp as ->.
    destruct Hc5 as [Hc5|Hc5]; discriminate Hc5.
Qed.

(** ** C3 and C8: raw files and videos *)

Lemma process_raw_sends (filePath : string) (w : World) (info : FileInfo) :
  os_Stat (disk w (clock w)) filePath = Ok info ->
  exists date, fst (processRawFile filePath w)
               = Some (mkImageInfo (uint64 (Size info)) filePath date).
Proof.
  intros Hstat. unfold processRawFile, bind at 1, ask. rewrite Hstat.
  unfold bind at 1.
  destruct (ExtractDate filePath (filepath_Base filePath) (tick w)) as [[d|e] w1].
  - exists d. reflexivity.
  - unfold bind.
    destruct (extractFileCreationDate filePath w1) as [[d|e'] w2]; eexists; reflexivity.
Qed.

Lemma process_video_sends (filePath : string) (w : World) (info : FileInfo) :
  os_Stat (disk w (clock w)) filePath = Ok info ->
  exists date, fst (processVideoFile filePath w)
               = Some (mkImageInfo (uint64 (Size info)) filePath date).
Proof.
  intros Hstat. unfold processVideoFile, bind at 1, ask. rewrite Hstat.
  unfold bind at 1.
  destruct (ExtractDate filePath (filepath_Base filePath) (tick w)) as [[d|e] w1].
  - exists d. reflexivity.
  - unfold bind.
    destruct (extractFileCreationDate filePath w1) as [[d|e'] w2]; eexists; reflexivity.
Qed.

Lemma process_raw_silent (filePath : string) (w : World) (e : string) :
  os_Stat (disk w (clock w)) filePath = Err e -> fst (processRawFile filePath w) = None.
Proof. intros H. unfold processRawFile, bind, ask. rewrite H. reflexivity. Qed.

Lemma process_video_silent (filePath : string) (w : World) (e : string) :
  os_Stat (disk w (clock w)) filePath = Err e -> fst (processVideoFile filePath w) = None.
Proof. intros H. unfold processVideoFile, bind, ask. rewrite H. reflexivity. Qed.

(** C3.  A raw file and a video whose [os.Stat] succeeds at the start of
    [processRawFile] / [processVideoFile] and which are gone afterwards:
    [ExtractDate] fails, [extractFileCreationDate] fails, and a record
    with the empty date is sent all the same.  [processImageFile], in
    the same situation, sends nothing.  The reducer then panics on the
    record of the file it cannot stat. *)
Theorem raw_and_video_sent_without_date :
  let w := start fleeting_disk in
  is_ok (fst (ExtractDate "src/shot.nef" "shot.nef" (tick w))) = false
  /\ is_ok (fst (extractFileCreationDate "src/shot.nef" (tick (tick (tick w))))) = false
  /\ fst (processRawFile "src/shot.nef" w) = Some (mkImageInfo 4096 "src/shot.nef" "")
  /\ fst (processVideoFile "src/clip.mp4" w) = Some (mkImageInfo 8192 "src/clip.mp4" "")
  /\ fst (processImageFile "src/pic.jpg" w) = None
  /\ fst (filterUniqueFiles [mkImageInfo 4096 "src/shot.nef" ""]
            (snd (processRawFile "src/shot.nef" w))) = Panics.
Proof. repeat split; reflexivity. Qed.

(** ** The reducer *)

Lemma filterStep_keyed (acc : list imageInfo) st r size :
  keyed_within acc (fst st) -> keyed_within (acc ++ [r]) (fst (filterStep st r size)).
Proof.
  destruct st as [u hs]. intros Hinv h k. unfold filterStep.
  destruct (negb _ || _); simpl.
  - rewrite lookup_insert. case_decide as Hh.
    + intros [= <-]. split; [done|]. apply elem_of_app. right. apply list_elem_of_singleton. done.
    + intros Hk. destruct (Hinv h k Hk). split; [done|]. apply elem_of_app. by left.
  - intros Hk. destruct (Hinv h k Hk). split; [done|]. apply elem_of_app. by left.
Qed.

Lemma filterLoop_keyed (files : list imageInfo) :
  forall acc st w unique,
    keyed_within acc (fst st) ->
    fst (filterLoop files st w) = Returns unique ->
    keyed_within (acc ++ files) unique.
Proof.
  induction files as [|r rest IH]; intros acc st w unique Hinv Hrun.
  - simpl in Hrun. injection Hrun as <-. by rewrite app_nil_r.
  - simpl in Hrun. unfold bind, ask in Hrun.
    destruct (os_Stat _ (filename r)) as [info|e]; [|discriminate].
    replace (acc ++ r :: rest)%list with ((acc ++ [r]) ++ rest)%list
      by (by rewrite <- app_assoc).
    eapply IH; [|exact Hrun]. by apply filterStep_keyed.
Qed.

Lemma filterUniqueFiles_keyed (files : list imageInfo) (w : World) unique :
  fst (filterUniqueFiles files w) = Returns unique -> keyed_within files unique.
Proof.
  intros H. apply (filterLoop_keyed files [] (∅, ∅) w); [|exact H].
  intros h k Hk. simpl in Hk. by rewrite lookup_empty in Hk.
Qed.

(** On a disk that answers [os.Stat] for the files of the stream the
    same way at every call, the loop is the fold over the sizes. *)
Lemma filterLoop_steady (d : Disk) (files : list imageInfo) :
  forall st w,
    (forall t r, (clock w <= t)%nat -> r ∈ files ->
                 os_Stat (disk w t) (filename r) = os_Stat d (filename r)) ->
    (forall r, r ∈ files -> is_ok (os_Stat d (filename r)) = true) ->
    fst (filterLoop files st w) = Returns (fst (filterPure (size_on d) files st)).
Proof.
  induction files as [|r rest IH]; intros st w Hsame Hok; [reflexivity|].
  simpl. unfold bind, ask.
  rewrite (Hsame (clock w) r) by (auto; apply list_elem_of_here).
  pose proof (Hok r (list_elem_of_here _ _)) as Hr.
  unfold filterPure; simpl. unfold size_on at 2.
  destruct (os_Stat d (filename r)) as [info|e]; [|discriminate].
  apply IH.
  - intros t r' Ht Hin. apply Hsame; [simpl in Ht; lia|by apply list_elem_of_further].
  - intros r' Hin. apply Hok. by apply list_elem_of_further.
Qed.

Lemma first_largest_bound size l k r :
  first_largest size l k -> r ∈ l -> hash r = hash k -> size r <= size k.
Proof.
  intros (pre & post & -> & Hpre & Hpost) Hin Hh.
  apply elem_of_app in Hin as [Hin|Hin].
  - specialize (Hpre r Hin Hh). lia.
  - apply elem_of_cons in Hin as [->|Hin]; [lia|]. by apply Hpost.
Qed.

Lemma first_largest_snoc_other size l k x :
  first_largest size l k -> (hash x = hash k -> size x <= size k) ->
  first_largest size (l ++ [x]) k.
Proof.
  intros (pre & post & -> & Hpre & Hpost) Hx.
  exists pre, (post ++ [x])%list. split; [by rewrite <- app_assoc|]. split; [done|].
  intros r Hin Hh. apply elem_of_app in Hin as [Hin|Hin]; [by apply Hpost|].
  apply list_elem_of_singleton in Hin as ->. by apply Hx.
Qed.

Lemma first_largest_snoc_new size l x :
  (forall r, r ∈ l -> hash r = hash x -> size r < size x) ->
  first_largest size (l ++ [x]) x.
Proof.
  intros H. exists l, []. split; [done|]. split; [done|].
  intros r Hin. by apply elem_of_nil in Hin.
Qed.

Lemma filterStep_inv size l st x :
  reducer_inv size l st -> reducer_inv size (l ++ [x]) (filterStep st x (size x)).
Proof.
  destruct st as [u hs]. intros [Hnone Hsome]. unfold filterStep. simpl in *.
  destruct (u !! hash x) as [k0|] eqn:Hk0.
  - destruct (Hsome _ _ Hk0) as (Hhk0 & Hsz & Hfl).
    rewrite bool_decide_eq_true_2 by eauto. rewrite Hsz. simpl.
    destruct (size k0 <? size x) eqn:Hlt.
    + apply Z.ltb_lt in Hlt. split; simpl.
      * intros h Hh. rewrite lookup_insert in Hh. case_decide; [done|].
        intros r Hin. apply elem_of_app in Hin as [Hin|Hin]; [by eapply Hnone|].
        apply list_elem_of_singleton in Hin as ->. done.
      * intros h k. rewrite !lookup_insert. case_decide as Hd.
        -- intros [= <-]. split; [done|]. split; [done|].
           apply first_largest_snoc_new. intros r Hin Hh.
           pose proof (first_largest_bound size l k0 r Hfl Hin ltac:(congruence)). lia.
        -- intros Hk. destruct (Hsome _ _ Hk) as (? & ? & Hfl'). split; [done|]. split; [done|].
           apply first_largest_snoc_other; [done|]. intros; congruence.
    + apply Z.ltb_ge in Hlt. split; simpl.
      * intros h Hh r Hin. apply elem_of_app in Hin as [Hin|Hin]; [by eapply Hnone|].
        apply list_elem_of_singleton in Hin as ->. intros <-. congruence.
      * intros h k Hk. destruct (Hsome _ _ Hk) as (Hh & ? & Hfl'). split; [done|]. split; [done|].
        apply first_largest_snoc_other; [done|]. intros Heq.
        assert (k = k0) as -> by congruence. done.
  - rewrite bool_decide_eq_false_2 by (intros [? ?]; congruence). simpl. split; simpl.
    + intros h Hh. rewrite lookup_insert in Hh. case_decide; [done|].
      intros r Hin. apply elem_of_app in Hin as [Hin|Hin]; [by eapply Hnone|].
      apply list_elem_of_singleton in Hin as ->. done.
    + intros h k. rewrite !lookup_insert. case_decide as Hd.
      * intros [= <-]. split; [done|]. split; [done|].
        apply first_largest_snoc_new. intros r Hin Hh.
        exfalso. by eapply (Hnone (hash x)).
      * intros Hk. destruct (Hsome _ _ Hk) as (? & ? & Hfl'). split; [done|]. split; [done|].
        apply first_largest_snoc_other; [done|]. intros; congruence.
Qed.

Lemma filterPure_inv size (files : list imageInfo) :
  reducer_inv size files (filterPure size files (∅, ∅)).
Proof.
  induction files as [|x l IH] using rev_ind.
  - split; simpl.
    + intros h _ r Hin. by apply elem_of_nil in Hin.
    + intros h k Hk. by rewrite lookup_empty in Hk.
  - unfold filterPure in *. rewrite foldl_app. simpl. by apply filterStep_inv.
Qed.

(** ** C1: the reducer keeps the first of the largest *)

(** C1.  When [os.Stat] answers for every file of the stream, and the
    same way throughout the loop, [filterUniqueFiles] returns a map whose
    keys are exactly the fingerprints of the stream and which holds, for
    each of them, the record that is the largest among the records with
    that fingerprint, the first arrived of them when several are. *)
Theorem filterUniqueFiles_keeps_first_largest
    (d : Disk) (files : list imageInfo) (w : World) :
  (forall t r, (clock w <= t)%nat -> r ∈ files ->
               os_Stat (disk w t) (filename r) = os_Stat d (filename r)) ->
  (forall r, r ∈ files -> is_ok (os_Stat d (filename r)) = true) ->
  exists unique,
    fst (filterUniqueFiles files w) = Returns unique
    /\ (forall h, is_Some (unique !! h) <-> exists r, r ∈ files /\ hash r = h)
    /\ (forall r, r ∈ files ->
          exists k, unique !! hash r = Some k
                    /\ hash k = hash r
                    /\ first_largest (size_on d) files k).
Proof.
  intros Hsame Hok.
  exists (fst (filterPure (size_on d) files (∅, ∅))).
  split; [by apply filterLoop_steady|].
  destruct (filterPure_inv (size_on d) files) as [Hnone Hsome].
  assert (forall r, r ∈ files ->
            exists k, fst (filterPure (size_on d) files (∅, ∅)) !! hash r = Some k
                      /\ hash k = hash r /\ first_largest (size_on d) files k) as Hall.
  { intros r Hin.
    destruct (fst (filterPure (size_on d) files (∅, ∅)) !! hash r) as [k|] eqn:Hk.
    - destruct (Hsome _ _ Hk) as (? & _ & ?). by exists k.
    - exfalso. by apply (Hnone _ Hk r Hin). }
  split; [|exact Hall].
  intros h. split.
  - intros [k Hk]. destruct (Hsome _ _ Hk) as (Hh & _ & pre & post & Heq & _).
    exists k. split; [|done]. rewrite Heq. apply elem_of_app. right. apply list_elem_of_here.
  - intros (r & Hin & <-). destruct (Hall r Hin) as (k & Hk & _). by exists k.
Qed.

(** ** C8: the fingerprint of raw files and videos *)

(** C8.  The record sent for a raw file or a video carries the size that
    [os.Stat] reported, as a [uint64]: the size itself when it is in the
    range of a non-negative [int64].  Two such files of the same size
    have the same fingerprint, and the map of the reducer, holding one
    record per fingerprint, cannot keep both. *)
Theorem raw_and_video_fingerprint_is_size
    (p1 p2 : string) (w1 w2 : World) (r1 r2 : imageInfo) :
  size_fingerprinted p1 w1 r1 ->
  size_fingerprinted p2 w2 r2 ->
  exists info1 info2,
    os_Stat (disk w1 (clock w1)) p1 = Ok info1
    /\ os_Stat (disk w2 (clock w2)) p2 = Ok info2
    /\ hash r1 = uint64 (Size info1) /\ filename r1 = p1
    /\ hash r2 = uint64 (Size info2) /\ filename r2 = p2
    /\ (0 <= Size info1 < 2 ^ 63 -> hash r1 = Size info1)
    /\ (Size info1 = Size info2 ->
        hash r1 = hash r2
        /\ forall files w unique h1 h2,
             fst (filterUniqueFiles files w) = Returns unique ->
             unique !! h1 = Some r1 -> unique !! h2 = Some r2 -> r1 = r2).
Proof.
  assert (forall p w r, size_fingerprinted p w r ->
            exists info, os_Stat (disk w (clock w)) p = Ok info
                         /\ hash r = uint64 (Size info) /\ filename r = p) as Hone.
  { intros p w r [H|H]; destruct (os_Stat (disk w (clock w)) p) as [info|e] eqn:Hstat.
    - destruct (process_raw_sends p w info Hstat) as [date Hd].
      rewrite Hd in H. injection H as <-. by exists info.
    - by rewrite (process_raw_silent p w e Hstat) in H.
    - destruct (process_video_sends p w info Hstat) as [date Hd].
      rewrite Hd in H. injection H as <-. by exists info.
    - by rewrite (process_video_silent p w e Hstat) in H. }
  intros H1 H2.
  destruct (Hone _ _ _ H1) as (info1 & Hs1 & Hh1 & Hf1).
  destruct (Hone _ _ _ H2) as (info2 & Hs2 & Hh2 & Hf2).
  exists info1, info2. repeat split; try done.
  - intros Hrange. rewrite Hh1. unfold uint64. apply Z.mod_small. lia.
  - rewrite Hh1, Hh2. congruence.
  - intros files w unique h1 h2 Hrun Hk1 Hk2.
    pose proof (filterUniqueFiles_keyed files w unique Hrun) as Hkeyed.
    destruct (Hkeyed _ _ Hk1) as [E1 _]. destruct (Hkeyed _ _ Hk2) as [E2 _].
    assert (h1 = h2) as -> by (rewrite <- E1, <- E2, Hh1, Hh2; congruence).
    congruence.
Qed.

(** ** UTF-8: what is decoded can be encoded and read again *)

Lemma forallb_seqZ (f : Z -> bool) (a n : Z) :
  forallb f (seqZ a n) = true -> forall b, a <= b < (a + n) -> f b = true.
Proof.
  intros H b Hb. rewrite forallb_forall in H. apply H.
  apply list_elem_of_In, elem_of_seqZ. lia.
Qed.

Lemma lead_bounds b0 sz lo hi :
  lead b0 = Some (sz, lo, hi) ->
  128 <= lo /\ hi <= 191
  /\ (sz = 2%nat /\ 194 <= b0 < (194 + 30)
      \/ sz = 3%nat /\ 224 <= b0 < (224 + 16)
      \/ sz = 4%nat /\ 240 <= b0 < (240 + 5)).
Proof.
  unfold lead. intros H.
  repeat match type of H with
         | (if ?c then _ else _) = _ => destruct c eqn:?
         end; try discriminate; injection H as <- <- <-; lia.
Qed.

Lemma within_bounds lo hi b :
  128 <= lo -> hi <= 191 -> within lo hi (Some b) = true -> 128 <= b < (128 + 64).
Proof. unfold within. intros. lia. Qed.

Lemma check2_all b0 b1 : 194 <= b0 < (194 + 30) -> 128 <= b1 < (128 + 64) -> check2 b0 b1 = true.
Proof.
  intros H0 H1. revert b1 H1. apply forallb_seqZ. revert b0 H0. apply forallb_seqZ.
  vm_compute. reflexivity.
Qed.

Lemma check3_all b0 b1 b2 :
  224 <= b0 < (224 + 16) -> 128 <= b1 < (128 + 64) -> 128 <= b2 < (128 + 64) ->
  check3 b0 b1 b2 = true.
Proof.
  intros H0 H1 H2. revert b2 H2. apply forallb_seqZ. revert b1 H1. apply forallb_seqZ.
  revert b0 H0. apply forallb_seqZ.
  vm_compute. reflexivity.
Qed.

Lemma check4_all b0 b1 b2 b3 :
  240 <= b0 < (240 + 5) -> 128 <= b1 < (128 + 64) -> 128 <= b2 < (128 + 64) ->
  128 <= b3 < (128 + 64) ->
  check4 b0 b1 b2 b3 = true.
Proof.
  intros H0 H1 H2 H3. revert b3 H3. apply forallb_seqZ. revert b2 H2. apply forallb_seqZ.
  revert b1 H1. apply forallb_seqZ. revert b0 H0. apply forallb_seqZ.
  vm_compute. reflexivity.
Qed.

Lemma byte_of_range c : 0 <= byte_of c < 256.
Proof. unfold byte_of. pose proof (N_ascii_bounded c). lia. Qed.

Lemma char_of_byte_of c : char_of (byte_of c) = c.
Proof. unfold char_of, byte_of. by rewrite N2Z.id, ascii_N_embedding. Qed.

Lemma runes_width1 c0 u :
  (byte_of c0 <? 128) = true -> runes (String c0 u) = byte_of c0 :: runes u.
Proof. intros H. cbn [runes]. unfold DecodeRune. by rewrite H. Qed.

Lemma runes_width2 c0 c1 u sz lo hi :
  (byte_of c0 <? 128) = false ->
  lead (byte_of c0) = Some (sz, lo, hi) ->
  within lo hi (Some (byte_of c1)) = true ->
  (sz <=? 2)%nat = true ->
  runes (String c0 (String c1 u))
  = Z.lor (Z.shiftl (Z.land (byte_of c0) 31) 6) (low6 (Some (byte_of c1))) :: runes u.
Proof.
  intros H0 Hl H1 Hsz. cbn [runes head_byte]. unfold DecodeRune.
  by rewrite H0, Hl, H1, Hsz.
Qed.

Lemma runes_width3 c0 c1 c2 u sz lo hi :
  (byte_of c0 <? 128) = false ->
  lead (byte_of c0) = Some (sz, lo, hi) ->
  within lo hi (Some (byte_of c1)) = true ->
  (sz <=? 2)%nat = false ->
  within 128 191 (Some (byte_of c2)) = true ->
  (sz <=? 3)%nat = true ->
  runes (String c0 (String c1 (String c2 u)))
  = Z.lor (Z.lor (Z.shiftl (Z.land (byte_of c0) 15) 12)
                 (Z.shiftl (low6 (Some (byte_of c1))) 6)) (low6 (Some (byte_of c2)))
    :: runes u.
Proof.
  intros H0 Hl H1 Hsz H2 Hsz3. cbn [runes head_byte]. unfold DecodeRune.
  by rewrite H0, Hl, H1, Hsz, H2, Hsz3.
Qed.

Lemma runes_width4 c0 c1 c2 c3 u sz lo hi :
  (byte_of c0 <? 128) = false ->
  lead (byte_of c0) = Some (sz, lo, hi) ->
  within lo hi (Some (byte_of c1)) = true ->
  (sz <=? 2)%nat = false ->
  within 128 191 (Some (byte_of c2)) = true ->
  (sz <=? 3)%nat = false ->
  within 128 191 (Some (byte_of c3)) = true ->
  runes (String c0 (String c1 (String c2 (String c3 u))))
  = Z.lor (Z.lor (Z.lor (Z.shiftl (Z.land (byte_of c0) 7) 18)
                        (Z.shiftl (low6 (Some (byte_of c1))) 12))
                 (Z.shiftl (low6 (Some (byte_of c2))) 6)) (low6 (Some (byte_of c3)))
    :: runes u.
Proof.
  intros H0 Hl H1 Hsz H2 Hsz3 H3. cbn [runes head_byte]. unfold DecodeRune.
  by rewrite H0, Hl, H1, Hsz, H2, Hsz3, H3.
Qed.

Lemma reads_back_RuneError : reads_back RuneError.
Proof.
  intros u.
  change (EncodeRune RuneError) with (String (char_of 239) (String (char_of 191) (String (char_of 189) ""))).
  change (runes (String (char_of 239) (String (char_of 191) (String (char_of 189) u)))
          = RuneError :: runes u).
  by rewrite (runes_width3 _ _ _ u 3%nat 128 191).
Qed.

(** The first rune of a string that is not empty, the rest of the
    string after it, and the rune read back from its encoding. *)
Lemma runes_head (c0 : ascii) (r0 : string) :
  exists r t, runes (String c0 r0) = r :: runes t
              /\ (String.length t <= String.length r0)%nat
              /\ reads_back r.
Proof.
  pose proof (byte_of_range c0) as Hb0.
  destruct (byte_of c0 <? 128) eqn:H0.
  { exists (byte_of c0), r0. split; [by apply runes_width1|]. split; [lia|].
    intros u. unfold EncodeRune.
    replace ((0 <=? byte_of c0) && (byte_of c0 <=? 127)) with true by lia.
    rewrite char_of_byte_of. by apply runes_width1. }
  assert (runes (String c0 r0) = RuneError :: runes r0 ->
          exists r t, runes (String c0 r0) = r :: runes t
              /\ (String.length t <= String.length r0)%nat
              /\ reads_back r) as Hbad.
  { intros E. exists RuneError, r0. split; [done|]. split; [lia|]. apply reads_back_RuneError. }
  destruct (lead (byte_of c0)) as [[[sz lo] hi]|] eqn:Hl.
  2: { apply Hbad. cbn [runes]. unfold DecodeRune. by rewrite H0, Hl. }
  destruct (lead_bounds _ _ _ _ Hl) as (Hlo & Hhi & Hsz).
  destruct r0 as [|c1 r1].
  { apply Hbad. cbn [runes head_byte]. unfold DecodeRune. by rewrite H0, Hl. }
  destruct (within lo hi (Some (byte_of c1))) eqn:H1.
  2: { apply Hbad. cbn [runes head_byte]. unfold DecodeRune. by rewrite H0, Hl, H1. }
  pose proof (within_bounds _ _ _ Hlo Hhi H1) as Hb1.
  destruct (sz <=? 2)%nat eqn:Hsz2.
  { eexists _, r1. split; [by apply (runes_width2 _ _ _ sz lo hi)|]. split; [simpl; lia|].
    intros u.
    assert (194 <= byte_of c0 < (194 + 30)) as Hr0
      by (destruct Hsz as [[-> ?]|[[-> ?]|[-> ?]]]; [done|discriminate|discriminate]).
    pose proof (check2_all _ _ Hr0 Hb1) as Hc. unfold check2 in Hc.
    rewrite Hl, Hsz2, H1 in Hc. simpl in Hc. apply String.eqb_eq in Hc.
    rewrite Hc, !char_of_byte_of.
    change (runes (String c0 (String c1 u)) = Z.lor (Z.shiftl (Z.land (byte_of c0) 31) 6) (low6 (Some (byte_of c1))) :: runes u).
    by apply (runes_width2 _ _ _ sz lo hi). }
  destruct r1 as [|c2 r2].
  { apply Hbad. cbn [runes head_byte]. unfold DecodeRune. by rewrite H0, Hl, H1, Hsz2. }
  destruct (within 128 191 (Some (byte_of c2))) eqn:H2.
  2: { apply Hbad. cbn [runes head_byte]. unfold DecodeRune. by rewrite H0, Hl, H1, Hsz2, H2. }
  pose proof (within_bounds 128 191 _ ltac:(lia) ltac:(lia) H2) as Hb2.
  destruct (sz <=? 3)%nat eqn:Hsz3.
  { eexists _, r2. split; [by apply (runes_width3 _ _ _ _ sz lo hi)|]. split; [simpl; lia|].
    intros u.
    assert (224 <= byte_of c0 < (224 + 16)) as Hr0
      by (destruct Hsz as [[-> ?]|[[-> ?]|[-> ?]]]; [discriminate|done|discriminate]).
    pose proof (check3_all _ _ _ Hr0 Hb1 Hb2) as Hc. unfold check3 in Hc.
    rewrite Hl, Hsz2, Hsz3, H1, H2 in Hc. simpl in Hc. apply String.eqb_eq in Hc.
    rewrite Hc, !char_of_byte_of.
    by apply (runes_width3 _ _ _ _ sz lo hi). }
  destruct r2 as [|c3 r3].
  { apply Hbad. cbn [runes head_byte]. unfold DecodeRune. by rewrite H0, Hl, H1, Hsz2, H2, Hsz3. }
  destruct (within 128 191 (Some (byte_of c3))) eqn:H3.
  2: { apply Hbad. cbn [runes head_byte]. unfold DecodeRune.
       by rewrite H0, Hl, H1, Hsz2, H2, Hsz3, H3. }
  pose proof (within_bounds 128 191 _ ltac:(lia) ltac:(lia) H3) as Hb3.
  eexists _, r3. split; [by apply (runes_width4 _ _ _ _ _ sz lo hi)|]. split; [simpl; lia|].
  intros u.
  assert (240 <= byte_of c0 < (240 + 5)) as Hr0
    by (destruct Hsz as [[-> ?]|[[-> ?]|[-> ?]]]; [discriminate|discriminate|done]).
  pose proof (check4_all _ _ _ _ Hr0 Hb1 Hb2 Hb3) as Hc. unfold check4 in Hc.
  rewrite Hl, Hsz3, H1, H2, H3 in Hc. simpl in Hc. apply String.eqb_eq in Hc.
  rewrite Hc, !char_of_byte_of.
  by apply (runes_width4 _ _ _ _ _ sz lo hi).
Qed.

Lemma runes_read_back (s : string) : runes (EncodeRunes (runes s)) = runes s.
Proof.
  remember (String.length s) as n eqn:Hn.
  revert s Hn. induction (lt_wf n) as [n _ IH]. intros s ->.
  destruct s as [|c0 r0]; [reflexivity|].
  destruct (runes_head c0 r0) as (r & t & -> & Hlen & Hback).
  cbn [EncodeRunes]. rewrite Hback. f_equal.
  apply (IH (String.length t)); [simpl; lia|reflexivity].
Qed.

Lemma json_string_idemp (s : string) : json_string (json_string s) = json_string s.
Proof. unfold json_string. by rewrite runes_read_back. Qed.

(** ** The JSON round trip *)

Lemma foldl_insert_list_to_map (l : list (string * string)) (acc : gmap string string) :
  foldl (fun acc kv => <[fst kv := snd kv]> acc) acc l = list_to_map (reverse l) ∪ acc.
Proof.
  revert acc. induction l as [|[a b] l IH]; intros acc; simpl.
  - by rewrite (left_id_L ∅ (∪)).
  - rewrite IH, reverse_cons, list_to_map_app. simpl.
    rewrite <- (assoc_L (∪)). f_equal.
    by rewrite <- insert_union_l, (left_id_L ∅ (∪)).
Qed.

Lemma foldl_json_valid (l : list (string * string)) (acc : gmap string string) :
  Forall (fun kv => json_string (fst kv) = fst kv /\ json_string (snd kv) = snd kv) l ->
  foldl (fun acc kv => <[json_string (fst kv) := json_string (snd kv)]> acc) acc l
  = foldl (fun acc kv => <[fst kv := snd kv]> acc) acc l.
Proof.
  intros Hall. revert acc. induction Hall as [|kv l [Hk Hv] _ IH]; intros acc; simpl; [done|].
  by rewrite Hk, Hv, IH.
Qed.

Lemma foldl_json_keeps (l : list (string * string)) (acc : gmap string string) (k : string) :
  is_Some (acc !! k) ->
  is_Some (foldl (fun acc kv => <[json_string (fst kv) := json_string (snd kv)]> acc) acc l !! k).
Proof.
  revert acc. induction l as [|kv l IH]; intros acc Hk; simpl; [done|].
  apply IH. destruct (decide (json_string (fst kv) = k)) as [<-|Hne].
  - rewrite lookup_insert_eq. eauto.
  - by rewrite lookup_insert_ne.
Qed.

Lemma foldl_json_adds (l : list (string * string)) (acc : gmap string string) (kv : string * string) :
  kv ∈ l ->
  is_Some (foldl (fun acc kv => <[json_string (fst kv) := json_string (snd kv)]> acc) acc l
           !! json_string (fst kv)).
Proof.
  revert acc. induction l as [|x l IH]; intros acc Hin; [by apply elem_of_nil in Hin|].
  apply elem_of_cons in Hin as [->|Hin]; simpl.
  - apply foldl_json_keeps. rewrite lookup_insert_eq. eauto.
  - by apply IH.
Qed.

(** A map of valid UTF-8 strings is read back as it was written. *)
Lemma json_roundtrip_valid (m : gmap string string) :
  valid_strings m -> json_roundtrip m = m.
Proof.
  intros Hvalid. unfold json_roundtrip.
  pose proof (merge_sort_Permutation key_le (map_to_list m)) as Hperm.
  rewrite foldl_json_valid.
  - rewrite foldl_insert_list_to_map, (right_id_L ∅ (∪)).
    rewrite <- (list_to_map_to_list m) at 2.
    apply list_to_map_proper.
    + rewrite reverse_Permutation, Hperm. apply NoDup_fst_map_to_list.
    + by rewrite reverse_Permutation.
  - apply Forall_forall. intros [k v] Hin. simpl.
    rewrite Hperm in Hin. apply elem_of_map_to_list in Hin. by apply Hvalid.
Qed.

(** No key is lost on the way: each is read back, as [json_string]
    writes it. *)
Lemma json_roundtrip_is_Some (m : gmap string string) (k : string) :
  is_Some (m !! k) -> is_Some (json_roundtrip m !! json_string k).
Proof.
  intros [v Hv]. unfold json_roundtrip.
  apply (foldl_json_adds _ _ (k, v)).
  rewrite (merge_sort_Permutation key_le (map_to_list m)).
  by apply elem_of_map_to_list.
Qed.

Lemma valid_strings_empty : valid_strings ∅.
Proof. intros k v H. by rewrite lookup_empty in H. Qed.

(** What is read back holds valid UTF-8 only, whatever was written. *)
Lemma json_roundtrip_strings_valid (m : gmap string string) :
  valid_strings (json_roundtrip m).
Proof.
  unfold json_roundtrip.
  generalize (merge_sort key_le (map_to_list m)). intros l.
  generalize valid_strings_empty. generalize (∅ : gmap string string).
  induction l as [|kv l IH]; intros acc Hacc; simpl; [done|].
  apply IH. intros k v H. apply lookup_insert_Some in H as [[<- <-]|[_ H]].
  - split; apply json_string_idemp.
  - by apply Hacc.
Qed.

Lemma valid_strings_singleton (k v : string) :
  json_string k = k -> json_string v = v -> valid_strings {[k := v]}.
Proof. intros Hk Hv k' v' H. apply lookup_singleton_Some in H as [<- <-]. done. Qed.

Lemma valid_strings_union (m1 m2 : gmap string string) :
  valid_strings m1 -> valid_strings m2 -> valid_strings (m1 ∪ m2).
Proof.
  intros H1 H2 k v H. apply lookup_union_Some_raw in H as [H|[_ H]]; eauto.
Qed.

(** ** C7 and C10: the ledger *)

Section Ledger.

Variable filepath_Join : string -> string -> string.

Abbreviation writeIndex := (writeIndexJSON filepath_Join).
Abbreviation indexOf destPath := (filepath_Join destPath "index.json").

(** A call that returns nil on a ledger holding an object has written
    the merged object, and has written nothing else. *)
Lemma writeIndexJSON_object destPath mapping existing w :
  ledgers w !! indexOf destPath = Some (IdxObject existing) ->
  fst (writeIndex destPath mapping w) = Returns None ->
  ledgers (snd (writeIndex destPath mapping w))
  = <[indexOf destPath := IdxObject (json_roundtrip (mapping ∪ existing))]> (ledgers w).
Proof.
  intros Hled. unfold writeIndexJSON. run.
  destruct (os_OpenFile _ _); simpl; [|discriminate].
  rewrite Hled. simpl.
  destruct (json_Encode_write _ _); simpl; [|discriminate].
  intros _. by rewrite insert_insert_eq.
Qed.

(** It does return nil when the file can be opened and written. *)
Lemma writeIndexJSON_object_succeeds destPath mapping existing w :
  ledgers w !! indexOf destPath = Some (IdxObject existing) ->
  os_OpenFile (disk w (clock w)) (indexOf destPath) = true ->
  json_Encode_write (disk w (S (clock w))) (indexOf destPath) = true ->
  fst (writeIndex destPath mapping w) = Returns None.
Proof.
  intros Hled Hopen Hwrite. unfold writeIndexJSON. run.
  rewrite Hopen. simpl. rewrite Hled. simpl. rewrite Hwrite. reflexivity.
Qed.

(** A ledger that is absent or empty is read as the empty object. *)
Lemma writeIndexJSON_fresh destPath mapping w :
  ledgers w !! indexOf destPath = None \/ ledgers w !! indexOf destPath = Some IdxEmpty ->
  fst (writeIndex destPath mapping w) = Returns None ->
  ledgers (snd (writeIndex destPath mapping w))
  = <[indexOf destPath := IdxObject (json_roundtrip (mapping ∪ ∅))]> (ledgers w).
Proof.
  intros Hled. unfold writeIndexJSON. run.
  destruct (os_OpenFile _ _); simpl; [|discriminate].
  destruct Hled as [Hled|Hled]; rewrite Hled; simpl;
    (destruct (json_Encode_write _ _); simpl; [|discriminate]); intros _.
  - by rewrite !insert_insert_eq.
  - by rewrite insert_insert_eq.
Qed.


Lemma writeIndexJSON_corrupt destPath mapping raw w :
  ledgers w !! indexOf destPath = Some (IdxCorrupt raw) ->
  writeIndex destPath mapping w
  = if os_OpenFile (disk w (clock w)) (indexOf destPath)
    then (Returns (Some "decode"), tick w)
    else (Returns (Some "open"), tick w).
Proof.
  intros Hled. unfold writeIndexJSON. run.
  destruct (os_OpenFile _ _); simpl; [|reflexivity].
  rewrite Hled. reflexivity.
Qed.

(** The file is rewritten only after a read that gave a map: whenever
    the ledgers change, the earlier content did decode. *)
Lemma writeIndexJSON_rewrites_only_after_read destPath mapping w :
  ledgers (snd (writeIndex destPath mapping w)) <> ledgers w ->
  forall raw, ledgers w !! indexOf destPath <> Some (IdxCorrupt raw).
Proof.
  intros Hchg raw Hled. apply Hchg.
  rewrite (writeIndexJSON_corrupt _ _ _ _ Hled).
  by destruct (os_OpenFile _ _).
Qed.

(** C10.  On a ledger whose bytes do not decode, [writeIndexJSON]
    returns an error (the decode error when the file could be opened),
    never nil and never a panic, and the ledgers are what they were. *)
Theorem writeIndexJSON_corrupt_ledger_kept
    (destPath : string) (mapping : gmap string string) (raw : string) (w : World) :
  ledgers w !! indexOf destPath = Some (IdxCorrupt raw) ->
  (exists e, fst (writeIndex destPath mapping w) = Returns (Some e))
  /\ (os_OpenFile (disk w (clock w)) (indexOf destPath) = true ->
      fst (writeIndex destPath mapping w) = Returns (Some "decode"))
  /\ ledgers (snd (writeIndex destPath mapping w)) = ledgers w
  /\ dest (snd (writeIndex destPath mapping w)) = dest w.
Proof.
  intros Hled. rewrite (writeIndexJSON_corrupt _ _ _ _ Hled).
  destruct (os_OpenFile _ _); simpl; eauto 6.
  repeat split; eauto. discriminate.
Qed.

End Ledger.

(** ** The workers *)

Lemma processImageFile_filename filePath w r :
  fst (processImageFile filePath w) = Some r -> filename r = filePath.
Proof.
  unfold processImageFile, bind at 1, ask.
  destruct (os_Open _ filePath) as [c|]; [|discriminate].
  destruct (negb (image_DecodeConfig c)); [discriminate|].
  destruct (imaging_Decode c) as [img|]; [|discriminate].
  destruct (AverageHash img) as [h|]; [|discriminate].
  unfold bind.
  destruct (ExtractDate filePath (filepath_Base filePath) _) as [[d|e] w1]; [|discriminate].
  simpl. by intros [= <-].
Qed.

Lemma processRawFile_filename filePath w r :
  fst (processRawFile filePath w) = Some r -> filename r = filePath.
Proof.
  intros H. destruct (os_Stat (disk w (clock w)) filePath) as [info|e] eqn:Hstat.
  - destruct (process_raw_sends filePath w info Hstat) as [d Hd]. rewrite Hd in H.
    by injection H as <-.
  - by rewrite (process_raw_silent filePath w e Hstat) in H.
Qed.

Lemma processVideoFile_filename filePath w r :
  fst (processVideoFile filePath w) = Some r -> filename r = filePath.
Proof.
  intros H. destruct (os_Stat (disk w (clock w)) filePath) as [info|e] eqn:Hstat.
  - destruct (process_video_sends filePath w info Hstat) as [d Hd]. rewrite Hd in H.
    by injection H as <-.
  - by rewrite (process_video_silent filePath w e Hstat) in H.
Qed.

(** One file: the counter of its class goes up by one, and at most one
    record, carrying the path of the file, joins the stream. *)
Lemma workOne_shape n sent file w :
  exists r : option imageInfo,
    fst (workOne (n, sent) file w) = (seen_after n file, (sent ++ option_list r)%list)
    /\ (forall x, r = Some x -> filename x = file /\ classify file <> Unsupported).
Proof.
  unfold workOne, seen_after. destruct (classify file) eqn:Hc; unfold bind, ret.
  - pose proof (processImageFile_filename file w) as Hf.
    destruct (processImageFile file w) as [r w1]. exists r. split; [done|].
    intros x ->. split; [by apply Hf|discriminate].
  - pose proof (processRawFile_filename file w) as Hf.
    destruct (processRawFile file w) as [r w1]. exists r. split; [done|].
    intros x ->. split; [by apply Hf|discriminate].
  - pose proof (processVideoFile_filename file w) as Hf.
    destruct (processVideoFile file w) as [r w1]. exists r. split; [done|].
    intros x ->. split; [by apply Hf|discriminate].
  - exists None. simpl. rewrite app_nil_r. split; [done|]. discriminate.
Qed.

Lemma uint64_range x : 0 <= uint64 x < 2 ^ 64.
Proof. unfold uint64. apply Z.mod_pos_bound. lia. Qed.

Lemma uint64_small x : 0 <= x < 2 ^ 64 -> uint64 x = x.
Proof. unfold uint64. apply Z.mod_small. Qed.

Lemma uint64_incr0 x : uint64 (incr x) = uint64 (x + 1).
Proof. unfold incr, uint64. apply Zmod_mod. Qed.

Lemma uint64_incr x k : uint64 (incr x + k) = uint64 (x + (k + 1)).
Proof.
  unfold incr, uint64. rewrite Zplus_mod_idemp_l. f_equal. lia.
Qed.

Lemma count_class_cons c file files :
  count_class c (file :: files)
  = ((if decide (classify file = c) then 1 else 0) + count_class c files)%nat.
Proof.
  unfold count_class. rewrite filter_cons. by destruct (decide (classify file = c)).
Qed.

Lemma seen_after_count n file :
  uint64 (imageCount (seen_after n file) + 0)
  = uint64 (imageCount n + Z.of_nat (count_class Image [file]))
  /\ uint64 (rawCount (seen_after n file) + 0)
     = uint64 (rawCount n + Z.of_nat (count_class Raw [file]))
  /\ uint64 (videoCount (seen_after n file) + 0)
     = uint64 (videoCount n + Z.of_nat (count_class Video [file])).
Proof.
  unfold seen_after. rewrite !count_class_cons. unfold count_class. simpl.
  destruct (classify file); simpl; rewrite ?uint64_incr; repeat split; f_equal; lia.
Qed.

Lemma seen_after_range n file : seen_in_range n -> seen_in_range (seen_after n file).
Proof.
  unfold seen_in_range, seen_after. intros (? & ? & ?).
  destruct (classify file); simpl; repeat split; try lia; apply uint64_range.
Qed.

(** The loop of the workers: each counter has advanced by the number of
    files of its class, and the records sent carry, in order, paths of
    files of a supported class. *)
Lemma workLoop_shape (files : list string) :
  forall n sent w,
  exists n' recs,
    fst (workLoop files (n, sent) w) = (n', (sent ++ recs)%list)
    /\ uint64 (imageCount n') = uint64 (imageCount n + Z.of_nat (count_class Image files))
    /\ uint64 (rawCount n') = uint64 (rawCount n + Z.of_nat (count_class Raw files))
    /\ uint64 (videoCount n') = uint64 (videoCount n + Z.of_nat (count_class Video files))
    /\ (seen_in_range n -> seen_in_range n')
    /\ (filename <$> recs) `sublist_of` files
    /\ Forall (fun x => classify (filename x) <> Unsupported) recs.
Proof.
  induction files as [|file rest IH]; intros n sent w.
  - exists n, []. unfold count_class. simpl. rewrite app_nil_r, !Z.add_0_r.
    do 5 (split; [done|]). split; [apply sublist_nil|constructor].
  - cbn [workLoop]. unfold bind at 1.
    destruct (workOne_shape n sent file w) as (r & Hone & Hr).
    destruct (workOne (n, sent) file w) as [st1 w1]. simpl in Hone. subst st1.
    destruct (IH (seen_after n file) (sent ++ option_list r)%list w1)
      as (n' & recs & Hrun & Hi & Hra & Hv & Hrange & Hsub & Hcls).
    exists n', (option_list r ++ recs)%list.
    destruct (seen_after_count n file) as (Ei & Er & Ev).
    rewrite !count_class_cons, !Nat2Z.inj_add.
    rewrite !count_class_cons in Ei, Er, Ev. unfold count_class in Ei, Er, Ev.
    simpl in Ei, Er, Ev. rewrite !Nat.add_0_r, !Z.add_0_r in Ei, Er, Ev.
    split; [by rewrite app_assoc|].
    assert (forall a b c d, uint64 a = uint64 (b + c) -> uint64 (a + d) = uint64 (b + (c + d)))
      as Hmod.
    { intros a b c d E. unfold uint64 in *.
      rewrite <- (Zplus_mod_idemp_l a), E, Zplus_mod_idemp_l. f_equal. lia. }
    split; [rewrite Hi; by apply Hmod|].
    split; [rewrite Hra; by apply Hmod|].
    split; [rewrite Hv; by apply Hmod|].
    split; [intros; by apply Hrange, seen_after_range|].
    destruct r as [x|]; simpl.
    + destruct (Hr x eq_refl) as [<- Hsup]. split; [by apply sublist_skip|].
      by constructor.
    + split; [by apply sublist_cons|done].
Qed.

(** ** The copy loop *)

Section Placement.

Variable filepath_Join : string -> string -> string.
Variable filepath_Rel : string -> string -> result string.

Abbreviation placeOne' := (placeOne filepath_Join filepath_Rel).
Abbreviation placeLoop' := (placeLoop filepath_Join filepath_Rel).

(** One iteration that returns: the counters are those that follow from
    how it ended, and a name it allocated is the one the counters gave. *)
Lemma placeOne_shape srcDir destDir c fileInfo w c' a :
  fst (placeOne' srcDir destDir c fileInfo w) = Returns (c', a) ->
  c' = after c fileInfo a
  /\ (forall name, allocated a = Some name -> name = name_for c fileInfo).
Proof.
  unfold placeOne, bind at 1, ask.
  destruct (os_MkdirAll _ _); simpl.
  2:{ intros [= <- <-]. split; [done|]. discriminate. }
  destruct (filepath_Rel srcDir (filename fileInfo)) as [relPath|e]; simpl.
  2:{ intros [= <- <-]. split; [done|]. discriminate. }
  unfold bind at 1.
  destruct (copyFile _ _ _) as [[e|] w2]; simpl.
  { intros [= <- <-]. split; [done|]. by intros name [= <-]. }
  unfold bind.
  destruct (writeIndexJSON _ _ _ _) as [[[e|]|] w3]; simpl; [| |discriminate].
  - intros [= <- <-]. split; [done|]. by intros name [= <-].
  - intros [= <- <-]. split; [done|]. by intros name [= <-].
Qed.

(** The loop, when it returns: one entry of the trace per record, in
    order; the final counters replay the trace; the names follow the
    counters. *)
Lemma placeLoop_shape srcDir destDir (files : list imageInfo) :
  forall c w c' tr,
    fst (placeLoop' srcDir destDir files c w) = Returns (c', tr) ->
    fst <$> tr = files /\ c' = replay c tr /\ names_follow c tr.
Proof.
  induction files as [|fileInfo rest IH]; intros c w c' tr.
  - simpl. by intros [= <- <-].
  - cbn [placeLoop]. unfold bind at 1.
    pose proof (placeOne_shape srcDir destDir c fileInfo w) as Hone.
    destruct (placeOne' srcDir destDir c fileInfo w) as [[[c1 a]|] w1]; [|discriminate].
    destruct (Hone c1 a eq_refl) as [-> Hname].
    unfold bind.
    pose proof (IH (after c fileInfo a) w1) as Hrest.
    destruct (placeLoop' srcDir destDir rest (after c fileInfo a) w1) as [[[c2 tr2]|] w2];
      [|discriminate].
    simpl. intros [= <- <-].
    destruct (Hrest c2 tr2 eq_refl) as (Hfst & Hrep & Hnames).
    split; [by rewrite fmap_cons, Hfst|]. split; [done|]. simpl. done.
Qed.

End Placement.

(** *** Numbers of the names *)

Lemma after_dateCounters_other c fileInfo a d :
  isoDate fileInfo <> d \/ allocated a = None ->
  dateCounters (after c fileInfo a) !! d = dateCounters c !! d.
Proof.
  intros Hcase. assert (forall c0, dateCounters (count_copied c0 (filename fileInfo))
                                   = dateCounters c0) as Hcc.
  { intros c0. unfold count_copied. by destruct (classify _). }
  destruct a; simpl; rewrite ?Hcc; try done;
    destruct Hcase as [Hne|Hnone]; try discriminate; simpl; by rewrite lookup_insert_ne.
Qed.

Lemma after_dateCounters_same c fileInfo a :
  is_Some (allocated a) ->
  dateCounters (after c fileInfo a) !! isoDate fileInfo = Some (next_number c fileInfo).
Proof.
  intros [name Hname]. assert (forall c0, dateCounters (count_copied c0 (filename fileInfo))
                                          = dateCounters c0) as Hcc.
  { intros c0. unfold count_copied. by destruct (classify _). }
  destruct a; try discriminate; simpl; rewrite ?Hcc; simpl; apply lookup_insert_eq.
Qed.

(** The [i]-th name allocated in a date directory carries the number
    that is [i + 1] above the counter of that date at the start. *)
Lemma names_follow_numbering (d : string) (tr : list (imageInfo * attempt)) :
  forall c i fileInfo a name,
    names_follow c tr ->
    allocations_in d tr !! i = Some (fileInfo, a) ->
    allocated a = Some name ->
    name = pad 3 (uint64 (default 0 (dateCounters c !! d) + (Z.of_nat i + 1)))
           +:+ filepath_Ext (filename fileInfo).
Proof.
  induction tr as [|[fi0 a0] tr IH]; intros c i fileInfo a name Hnames Hi Ha.
  - unfold allocations_in in Hi. by rewrite filter_nil, lookup_nil in Hi.
  - destruct Hnames as [Hname0 Hnames]. unfold allocations_in in Hi. rewrite filter_cons in Hi.
    destruct (decide (isoDate (fst (fi0, a0)) = d /\ is_Some (allocated (snd (fi0, a0)))))
      as [[Hd Hsome]|Hno]; simpl in *.
    + destruct i as [|i]; simpl in Hi.
      * injection Hi as -> ->. rewrite (Hname0 _ Ha). unfold name_for, next_number.
        rewrite Hd. simpl. reflexivity.
      * rewrite (IH _ _ _ _ _ Hnames Hi Ha). subst d.
        rewrite (after_dateCounters_same c fi0 a0 Hsome). simpl.
        unfold next_number. rewrite uint64_incr. do 3 f_equal. lia.
    + rewrite (IH _ _ _ _ _ Hnames Hi Ha).
      rewrite after_dateCounters_other; [done|].
      destruct (decide (isoDate fi0 = d)) as [Hd|Hd]; [|by left]. right.
      destruct (allocated a0) eqn:Ha0; [|done]. exfalso. apply Hno. eauto.
Qed.

(** *** Copied counters *)

Lemma placed_count_cons cls x tr :
  placed_count cls (x :: tr)
  = ((if decide (is_placed (snd x) = true /\ classify (filename (fst x)) = cls)
      then 1 else 0) + placed_count cls tr)%nat.
Proof.
  unfold placed_count. rewrite filter_cons. by destruct (decide _).
Qed.

Lemma after_copied cls c fileInfo a :
  cls <> Unsupported ->
  let get := match cls with
             | Image => imageCopied | Raw => rawCopied | Video => videoCopied
             | Unsupported => fun _ => 0
             end in
  uint64 (get (after c fileInfo a))
  = uint64 (get c + Z.of_nat (placed_count cls [(fileInfo, a)])).
Proof.
  intros Hcls. rewrite placed_count_cons. unfold placed_count. simpl. rewrite Nat.add_0_r.
  destruct (is_placed a) eqn:Hp.
  - destruct a; try discriminate. simpl. unfold count_copied.
    destruct (decide (true = true /\ classify (filename fileInfo) = cls)) as [[_ Hc]|Hn].
    + rewrite Hc. destruct cls; simpl; try done; by rewrite uint64_incr0.
    + destruct (classify (filename fileInfo)) eqn:Hc; destruct cls; simpl;
        try (f_equal; lia); exfalso; apply Hn; done.
  - rewrite decide_False by (intros [? ?]; discriminate).
    destruct a; try discriminate; destruct cls; simpl; f_equal; lia.
Qed.

Lemma after_copied_range c fileInfo a : copied_in_range c -> copied_in_range (after c fileInfo a).
Proof.
  unfold copied_in_range. intros (? & ? & ?).
  destruct a; simpl; try done. unfold count_copied.
  destruct (classify _); simpl; repeat split; try lia; apply uint64_range.
Qed.

Lemma replay_copied cls (tr : list (imageInfo * attempt)) :
  cls <> Unsupported ->
  forall c,
    let get := match cls with
               | Image => imageCopied | Raw => rawCopied | Video => videoCopied
               | Unsupported => fun _ => 0
               end in
    uint64 (get (replay c tr)) = uint64 (get c + Z.of_nat (placed_count cls tr))
    /\ (copied_in_range c -> copied_in_range (replay c tr)).
Proof.
  intros Hcls. induction tr as [|[fi a] tr IH]; intros c get.
  - simpl. unfold placed_count. simpl. rewrite Z.add_0_r. done.
  - simpl. destruct (IH (after c fi a)) as [Hcount Hrange]. fold get in Hcount.
    split; [|intros; by apply Hrange, after_copied_range].
    rewrite Hcount. pose proof (after_copied cls c fi a Hcls) as Hone. fold get in Hone.
    rewrite placed_count_cons. rewrite placed_count_cons in Hone.
    unfold placed_count in Hone at 1. simpl in Hone. rewrite Nat.add_0_r in Hone.
    rewrite Nat2Z.inj_add. unfold uint64 in *.
    rewrite <- Zplus_mod_idemp_l, Hone, Zplus_mod_idemp_l. simpl. f_equal. lia.
Qed.

Lemma placed_count_le cls (tr : list (imageInfo * attempt)) :
  (placed_count cls tr <= count_class cls (filename <$> (fst <$> tr)))%nat.
Proof.
  induction tr as [|[fi a] tr IH]; [done|].
  rewrite placed_count_cons, !fmap_cons, count_class_cons.
  change (fst (fi, a)) with fi. change (snd (fi, a)) with a.
  destruct (decide (is_placed a = true /\ _)) as [[_ Hc]|_];
    destruct (decide (classify (filename fi) = cls)); try congruence; lia.
Qed.

(** ** The whole run *)

Lemma count_class_submseteq cls (l1 l2 : list string) :
  l1 ⊆+ l2 -> (count_class cls l1 <= count_class cls l2)%nat.
Proof.
  intros Hsub. apply submseteq_Permutation in Hsub as [k Hk].
  unfold count_class. rewrite Hk, filter_app, length_app. lia.
Qed.

Lemma count_class_le_length cls (l : list string) : (count_class cls l <= length l)%nat.
Proof. apply length_filter. Qed.

Lemma keys_of_values (l : list (Z * imageInfo)) :
  (forall h k, (h, k) ∈ l -> hash k = h) -> hash <$> l.*2 = l.*1.
Proof.
  induction l as [|[h k] l IH]; intros Hl; [done|].
  rewrite !fmap_cons. simpl. f_equal.
  - apply Hl. apply list_elem_of_here.
  - apply IH. intros h' k' Hin. apply Hl. by apply list_elem_of_further.
Qed.

(** The records of the map are distinct records of the stream. *)
Lemma keyed_values_submseteq (files : list imageInfo) (unique : gmap Z imageInfo) :
  keyed_within files unique -> (map_to_list unique).*2 ⊆+ files.
Proof.
  intros Hkeyed. apply NoDup_submseteq.
  - apply (NoDup_fmap_1 hash). rewrite keys_of_values.
    + apply NoDup_fst_map_to_list.
    + intros h k Hin. apply elem_of_map_to_list in Hin. by destruct (Hkeyed h k Hin).
  - intros k Hin. apply list_elem_of_fmap in Hin as [[h k'] [-> Hin]].
    apply elem_of_map_to_list in Hin. by destruct (Hkeyed h k' Hin).
Qed.

Lemma names_follow_elem (tr : list (imageInfo * attempt)) :
  forall c fileInfo a name,
    names_follow c tr -> (fileInfo, a) ∈ tr -> allocated a = Some name ->
    exists n, name = pad 3 n +:+ filepath_Ext (filename fileInfo).
Proof.
  induction tr as [|[fi0 a0] tr IH]; intros c fileInfo a name Hnames Hin Ha.
  - by apply elem_of_nil in Hin.
  - destruct Hnames as [Hname0 Hnames].
    apply elem_of_cons in Hin as [[= -> ->]|Hin].
    + exists (next_number c fi0). by apply Hname0.
    + by apply (IH _ _ _ _ Hnames Hin Ha).
Qed.

Lemma append_inj_r (p x y : string) : p +:+ x = p +:+ y -> x = y.
Proof. induction p as [|ch p IH]; simpl; [done|]. intros [= H]. by apply IH. Qed.

Section Run.

Variable filepath_Join : string -> string -> string.
Variable filepath_Rel : string -> string -> result string.
Variable arrival : list string -> list string.
Variable iteration : gmap Z imageInfo -> list imageInfo.

Abbreviation ProcessFiles' := (ProcessFiles filepath_Join filepath_Rel arrival iteration).

(** What lies behind a run that prints its summary. *)
Lemma ProcessFiles_finished srcDir destDir numWorkers w s tr :
  fst (ProcessFiles' srcDir destDir numWorkers w) = Finished s tr ->
  exists fileList n resultChan uniqueFiles c w1 w2,
    filepath_Walk (disk w (clock w)) srcDir = Ok fileList
    /\ fileList <> [] /\ 0 < numWorkers
    /\ workLoop (arrival fileList) (mkSeen 0 0 0, []) (tick w) = ((n, resultChan), w1)
    /\ filterUniqueFiles resultChan w1 = (Returns uniqueFiles, w2)
    /\ fst (placeLoop filepath_Join filepath_Rel srcDir destDir (iteration uniqueFiles)
              (mkCounters ∅ 0 0 0) w2) = Returns (c, tr)
    /\ s = mkSummary
             (imageCount n) (sub64 (imageCount n) (imageCopied c)) (imageCopied c)
             (rawCount n) (sub64 (rawCount n) (rawCopied c)) (rawCopied c)
             (videoCount n) (sub64 (videoCount n) (videoCopied c)) (videoCopied c).
Proof.
  unfold ProcessFiles, bind at 1, ask.
  destruct (filepath_Walk _ srcDir) as [fileList|e]; [|discriminate].
  case_bool_decide as Hnil; [discriminate|].
  destruct (numWorkers <=? 0) eqn:Hn; [discriminate|]. apply Z.leb_gt in Hn.
  unfold bind at 1.
  destruct (workLoop (arrival fileList) _ (tick w)) as [[n resultChan] w1] eqn:Hwork.
  unfold bind at 1.
  destruct (filterUniqueFiles resultChan w1) as [[uniqueFiles|] w2] eqn:Hfilter; [|discriminate].
  unfold bind.
  destruct (placeLoop _ _ _ _ _ _ w2) as [[[c tr']|] w3] eqn:Hplace; [|discriminate].
  simpl. intros [= <- <-].
  exists fileList, n, resultChan, uniqueFiles, c, w1, w2. by rewrite Hplace.
Qed.

(** A run without files ends before any counter exists. *)
Lemma ProcessFiles_no_files srcDir destDir numWorkers w :
  filepath_Walk (disk w (clock w)) srcDir = Ok [] ->
  ProcessFiles' srcDir destDir numWorkers w = (NoFiles, tick w).
Proof. intros H. unfold ProcessFiles, bind, ask. by rewrite H. Qed.

(** The records the copy loop walks over are distinct records that the
    workers sent. *)
Lemma unique_records_from_stream resultChan w1 uniqueFiles :
  (forall m, iteration m ≡ₚ (map_to_list m).*2) ->
  fst (filterUniqueFiles resultChan w1) = Returns uniqueFiles ->
  iteration uniqueFiles ⊆+ resultChan.
Proof.
  intros Hiter Hrun. rewrite Hiter.
  by apply keyed_values_submseteq, (filterUniqueFiles_keyed resultChan w1).
Qed.

(** C5.  When the order of [range] visits every record of the map once,
    the workers take every file once, and the file list is shorter than
    2^64, the summary of a run that prints one has, for each class,
    [0 <= copied <= seen < 2^64] and [duplicates = seen - copied], so
    no subtraction wraps around; a run that finds no file prints no
    summary. *)
Theorem summary_counters_consistent
    (srcDir destDir : string) (numWorkers : Z) (w : World)
    (s : Summary) (tr : list (imageInfo * attempt)) :
  (forall l, arrival l ≡ₚ l) ->
  (forall m, iteration m ≡ₚ (map_to_list m).*2) ->
  (forall fileList, filepath_Walk (disk w (clock w)) srcDir = Ok fileList ->
                    Z.of_nat (length fileList) < 2 ^ 64) ->
  fst (ProcessFiles' srcDir destDir numWorkers w) = Finished s tr ->
  summary_consistent s
  /\ filepath_Walk (disk w (clock w)) srcDir <> Ok [].
Proof.
  intros Harr Hiter Hlen Hrun.
  destruct (ProcessFiles_finished _ _ _ _ _ _ Hrun)
    as (fileList & n & resultChan & uniqueFiles & c & w1 & w2
        & Hwalk & Hne & Hworkers & Hwork & Hfilter & Hplace & ->).
  split; [|rewrite Hwalk; congruence].
  specialize (Hlen fileList Hwalk).
  destruct (workLoop_shape (arrival fileList) (mkSeen 0 0 0) [] (tick w))
    as (n' & recs & Hw & Hi & Hr & Hv & Hrange & Hsub & _).
  rewrite Hwork in Hw. simpl in Hw. injection Hw as <- <-.
  assert (seen_in_range n) as (Hni & Hnr & Hnv).
  { apply Hrange. unfold seen_in_range. simpl. lia. }
  assert (iteration uniqueFiles ⊆+ resultChan) as Hu.
  { apply (unique_records_from_stream resultChan w1); [done|by rewrite Hfilter]. }
  destruct (placeLoop_shape _ _ _ _ _ _ _ _ _ Hplace) as (Hfst & Hrep & _).
  assert (copied_in_range c) as (Hci & Hcr & Hcv).
  { rewrite Hrep. apply (replay_copied Image); [done|]. unfold copied_in_range. simpl. lia. }
  assert (forall cls, (placed_count cls tr <= count_class cls (arrival fileList))%nat) as Hle.
  { intros cls. etrans; [apply placed_count_le|]. rewrite Hfst.
    etrans; [apply count_class_submseteq, fmap_submseteq, Hu|].
    by apply count_class_submseteq, sublist_submseteq. }
  assert (forall cls, Z.of_nat (count_class cls (arrival fileList)) < 2 ^ 64) as Hbound.
  { intros cls. pose proof (count_class_le_length cls (arrival fileList)) as Hc.
    rewrite (Permutation_length (Harr fileList)) in Hc. lia. }
  assert (forall x k, 0 <= x < 2 ^ 64 -> 0 <= k < 2 ^ 64 -> uint64 x = uint64 (0 + k) -> x = k)
    as Hexact.
  { intros x k Hx Hk E. by rewrite Z.add_0_l, !uint64_small in E. }
  destruct (replay_copied Image tr ltac:(done) (mkCounters ∅ 0 0 0)) as [Eci _].
  destruct (replay_copied Raw tr ltac:(done) (mkCounters ∅ 0 0 0)) as [Ecr _].
  destruct (replay_copied Video tr ltac:(done) (mkCounters ∅ 0 0 0)) as [Ecv _].
  rewrite <- Hrep in Eci, Ecr, Ecv. simpl in Hi, Hr, Hv, Eci, Ecr, Ecv.
  pose proof (Hle Image) as Li. pose proof (Hle Raw) as Lr. pose proof (Hle Video) as Lv.
  pose proof (Hbound Image) as Bi. pose proof (Hbound Raw) as Br.
  pose proof (Hbound Video) as Bv.
  apply Hexact in Hi; [|lia..]. apply Hexact in Hr; [|lia..]. apply Hexact in Hv; [|lia..].
  apply Hexact in Eci; [|lia..]. apply Hexact in Ecr; [|lia..]. apply Hexact in Ecv; [|lia..].
  unfold summary_consistent, sub64. simpl.
  rewrite !uint64_small by lia. lia.
Qed.

(** C6, as the code has it.  In a run that prints its summary, the
    [i]-th iteration (from 0) that allocates a name in the directory of
    a date, whether its copy and its ledger write then succeed or not,
    allocates the number [i + 1] (as a [uint64]) padded to three digits
    and followed by the extension of the source file. *)
Theorem allocated_names_are_consecutive
    (srcDir destDir : string) (numWorkers : Z) (w : World)
    (s : Summary) (tr : list (imageInfo * attempt))
    (d : string) (i : nat) (fileInfo : imageInfo) (a : attempt) (name : string) :
  fst (ProcessFiles' srcDir destDir numWorkers w) = Finished s tr ->
  allocations_in d tr !! i = Some (fileInfo, a) ->
  allocated a = Some name ->
  name = pad 3 (uint64 (Z.of_nat i + 1)) +:+ filepath_Ext (filename fileInfo)
  /\ isoDate fileInfo = d.
Proof.
  intros Hrun Hi Ha.
  destruct (ProcessFiles_finished _ _ _ _ _ _ Hrun)
    as (fileList & n & resultChan & uniqueFiles & c & w1 & w2
        & _ & _ & _ & _ & _ & Hplace & _).
  destruct (placeLoop_shape _ _ _ _ _ _ _ _ _ Hplace) as (_ & _ & Hnames).
  split.
  - rewrite (names_follow_numbering d tr _ i fileInfo a name Hnames Hi Ha).
    simpl. by rewrite lookup_empty.
  - apply list_elem_of_lookup_2 in Hi. unfold allocations_in in Hi.
    apply list_elem_of_filter in Hi as [[Hd _] _]. exact Hd.
Qed.

(** C9.  In a run that prints its summary, every name allocated for a
    record is a number followed by the extension of the source file as
    [filepath.Ext] returns it: when that extension has upper-case
    letters the name does not end in its lower-case form, although the
    file was given its class (image, raw or video) by the lower-case
    form. *)
Theorem allocated_name_keeps_extension
    (srcDir destDir : string) (numWorkers : Z) (w : World)
    (s : Summary) (tr : list (imageInfo * attempt))
    (fileInfo : imageInfo) (a : attempt) (name : string) :
  (forall m, iteration m ≡ₚ (map_to_list m).*2) ->
  fst (ProcessFiles' srcDir destDir numWorkers w) = Finished s tr ->
  (fileInfo, a) ∈ tr ->
  allocated a = Some name ->
  let ext := filepath_Ext (filename fileInfo) in
  exists n,
    name = pad 3 n +:+ ext
    /\ (strings_ToLower ext <> ext -> name <> pad 3 n +:+ strings_ToLower ext)
    /\ (SupportedImageFormats (strings_ToLower ext)
        || SupportedRawFormats (strings_ToLower ext)
        || SupportedVideoFormats (strings_ToLower ext) = true).
Proof.
  intros Hiter Hrun Hin Ha ext.
  destruct (ProcessFiles_finished _ _ _ _ _ _ Hrun)
    as (fileList & n & resultChan & uniqueFiles & c & w1 & w2
        & _ & _ & _ & Hwork & Hfilter & Hplace & _).
  destruct (placeLoop_shape _ _ _ _ _ _ _ _ _ Hplace) as (Hfst & _ & Hnames).
  destruct (names_follow_elem tr _ fileInfo a name Hnames Hin Ha) as [k Hk].
  exists k. split; [exact Hk|]. split.
  - intros Hcase Heq. rewrite Hk in Heq. apply append_inj_r in Heq. by apply Hcase.
  - destruct (workLoop_shape (arrival fileList) (mkSeen 0 0 0) [] (tick w))
      as (n' & recs & Hw & _ & _ & _ & _ & _ & Hcls).
    rewrite Hwork in Hw. simpl in Hw. injection Hw as <- <-.
    assert (fileInfo ∈ resultChan) as Hrec.
    { eapply elem_of_submseteq;
        [|apply (unique_records_from_stream resultChan w1); [done|by rewrite Hfilter]].
      rewrite <- Hfst. apply list_elem_of_fmap. by exists (fileInfo, a). }
    rewrite Forall_forall in Hcls. specialize (Hcls fileInfo Hrec).
    unfold classify in Hcls. fold ext in Hcls.
    destruct (SupportedImageFormats _); [done|].
    destruct (SupportedRawFormats _); [done|].
    destruct (SupportedVideoFormats _); done.
Qed.

End Run.

(** ** The model at work *)

(** Dedup correctness: with sizes 100 < 300 the larger file is kept. *)
Example larger_file_wins :
  exists unique,
    fst (filterUniqueFiles demo_stream demo_world) = Returns unique
    /\ unique !! 7 = Some (mkImageInfo 7 "src/sub/IMG_0003.JPG" "2022-03-04").
Proof. eexists. split; vm_compute; reflexivity. Qed.

(** ** The theorems at concrete inputs *)

Lemma filterUniqueFiles_keeps_first_largest_witness :
  exists unique,
    fst (filterUniqueFiles demo_stream demo_world) = Returns unique
    /\ (forall h, is_Some (unique !! h) <-> exists r, r ∈ demo_stream /\ hash r = h)
    /\ (forall r, r ∈ demo_stream ->
          exists k, unique !! hash r = Some k
                    /\ hash k = hash r
                    /\ first_largest (size_on demo_disk) demo_stream k).
Proof.
  apply (filterUniqueFiles_keeps_first_largest demo_disk demo_stream demo_world).
  - intros t r _ _. reflexivity.
  - intros r Hin. unfold demo_stream in Hin.
    repeat (apply elem_of_cons in Hin as [->|Hin]; [reflexivity|]).
    by apply elem_of_nil in Hin.
Defined.

Lemma raw_and_video_fingerprint_is_size_witness :
  exists info1 info2,
    os_Stat (disk demo_world (clock demo_world)) "src/a.mp4" = Ok info1
    /\ os_Stat (disk demo_world (clock demo_world)) "src/b.mp4" = Ok info2
    /\ hash (mkImageInfo 5000 "src/a.mp4" "2021-07-08") = uint64 (Size info1)
    /\ filename (mkImageInfo 5000 "src/a.mp4" "2021-07-08") = "src/a.mp4"
    /\ hash (mkImageInfo 5000 "src/b.mp4" "2021-07-09") = uint64 (Size info2)
    /\ filename (mkImageInfo 5000 "src/b.mp4" "2021-07-09") = "src/b.mp4"
    /\ (0 <= Size info1 < 2 ^ 63 ->
        hash (mkImageInfo 5000 "src/a.mp4" "2021-07-08") = Size info1)
    /\ (Size info1 = Size info2 ->
        hash (mkImageInfo 5000 "src/a.mp4" "2021-07-08")
        = hash (mkImageInfo 5000 "src/b.mp4" "2021-07-09")
        /\ forall files w unique h1 h2,
             fst (filterUniqueFiles files w) = Returns unique ->
             unique !! h1 = Some (mkImageInfo 5000 "src/a.mp4" "2021-07-08") ->
             unique !! h2 = Some (mkImageInfo 5000 "src/b.mp4" "2021-07-09") ->
             mkImageInfo 5000 "src/a.mp4" "2021-07-08"
             = mkImageInfo 5000 "src/b.mp4" "2021-07-09").
Proof.
  apply (raw_and_video_fingerprint_is_size "src/a.mp4" "src/b.mp4" demo_world demo_world).
  - right. reflexivity.
  - right. reflexivity.
Defined.



Lemma writeIndexJSON_corrupt_ledger_kept_witness :
  let w := ledger_world (IdxCorrupt "{ not json") in
  fst (writeIndexJSON simple_Join "dst/2022-03-04" {[ "b.jpg" := "002.jpg" ]} w)
  = Returns (Some "decode")
  /\ ledgers (snd (writeIndexJSON simple_Join "dst/2022-03-04" {[ "b.jpg" := "002.jpg" ]} w))
     = ledgers w.
Proof.
  intros w.
  destruct (writeIndexJSON_corrupt_ledger_kept simple_Join "dst/2022-03-04"
              {[ "b.jpg" := "002.jpg" ]} "{ not json" w)
    as (_ & Hdec & Hled & _).
  - reflexivity.
  - split; [apply Hdec; reflexivity|exact Hled].
Defined.

(** * Further properties of the code *)

(** ** [copyFile] *)

(** X1.  [copyFile] returns nil exactly when the source opens, the
    destination is created and the copy completes, and then the
    destination holds the bytes of the source.  When the source cannot
    be opened the destination is not touched; when the copy fails after
    [os.Create] the destination is left truncated.  No other path of
    the destination tree and no ledger changes. *)
Theorem copyFile_outcomes (src dst : string) (w : World) :
  let d0 := disk w (clock w) in
  let d1 := disk w (S (clock w)) in
  let d2 := disk w (S (S (clock w))) in
  let w' := snd (copyFile src dst w) in
  (fst (copyFile src dst w) = None
   <-> is_ok (os_Open d0 src) = true /\ os_Create d1 dst = true /\ io_Copy d2 src dst = true)
  /\ (fst (copyFile src dst w) = None -> dest w' !! dst = Some (CopyOf src))
  /\ (is_ok (os_Open d0 src) = false -> dest w' = dest w)
  /\ (is_ok (os_Open d0 src) = true -> os_Create d1 dst = false -> dest w' = dest w)
  /\ (is_ok (os_Open d0 src) = true -> os_Create d1 dst = true -> io_Copy d2 src dst = false ->
      dest w' !! dst = Some Truncated)
  /\ (forall p, p <> dst -> dest w' !! p = dest w !! p)
  /\ ledgers w' = ledgers w.
Proof.
  unfold copyFile. run.
  destruct (os_Open (disk w (clock w)) src) as [c|e]; simpl.
  2:{ repeat split; try done; intros; try discriminate; intuition discriminate. }
  destruct (os_Create (disk w (S (clock w))) dst); simpl.
  2:{ repeat split; try done; intros; try discriminate; intuition discriminate. }
  destruct (io_Copy (disk w (S (S (clock w)))) src dst); simpl.
  - repeat split; try done; intros; try discriminate.
    + apply lookup_insert_eq.
    + by rewrite !lookup_insert_ne.
  - repeat split; try done; intros; try discriminate; try intuition discriminate.
    + apply lookup_insert_eq.
    + by rewrite lookup_insert_ne.
Qed.

(** ** [processImageFile] *)

(** X2.  [processImageFile] sends a record exactly when the file opens, its
    header decodes, the picture decodes, the hash is computed and the
    date resolves; the record carries the hash, the path and that
    date.  A failure at any of these steps sends nothing. *)
Theorem processImageFile_sends_iff (filePath : string) (w : World) (r : imageInfo) :
  fst (processImageFile filePath w) = Some r
  <-> exists c img h date,
        os_Open (disk w (clock w)) filePath = Ok c
        /\ image_DecodeConfig c = true
        /\ imaging_Decode c = Ok img
        /\ AverageHash img = Ok h
        /\ fst (ExtractDate filePath (filepath_Base filePath) (tick w)) = Ok date
        /\ r = mkImageInfo (uint64 h) filePath date.
Proof.
  unfold processImageFile, bind at 1, ask.
  destruct (os_Open _ filePath) as [c|e].
  2:{ split; [discriminate|]. intros (? & ? & ? & ? & ? & _). discriminate. }
  destruct (image_DecodeConfig c) eqn:Hcfg; simpl.
  2:{ split; [discriminate|]. intros (? & ? & ? & ? & [= <-] & ? & _). congruence. }
  destruct (imaging_Decode c) as [img|e] eqn:Himg.
  2:{ split; [discriminate|]. intros (? & ? & ? & ? & [= <-] & _ & ? & _). congruence. }
  destruct (AverageHash img) as [h|e] eqn:Hh.
  2:{ split; [discriminate|]. intros (? & ? & ? & ? & [= <-] & _ & ? & ? & _). congruence. }
  unfold bind.
  destruct (ExtractDate filePath (filepath_Base filePath) (tick w)) as [[d|e] w1]; simpl.
  - split.
    + intros [= <-]. by exists c, img, h, d.
    + intros (c' & img' & h' & d' & [= <-] & _ & Hi & Hh' & [= <-] & ->).
      rewrite Himg in Hi. injection Hi as <-. rewrite Hh in Hh'. by injection Hh' as <-.
  - split; [discriminate|]. intros (? & ? & ? & ? & _ & _ & _ & _ & ? & _). discriminate.
Qed.

(** ** The extension tables *)

Ltac table_cases H :=
  apply bool_decide_eq_true_1 in H;
  repeat (apply elem_of_cons in H as [->|H]; [reflexivity|]);
  by apply elem_of_nil in H.

(** X3.  The three extension tables are pairwise disjoint: the class of a
    file does not depend on the order of the [if / else if] chain. *)
Theorem extension_tables_disjoint (ext : string) :
  (SupportedImageFormats ext = true ->
   SupportedRawFormats ext = false /\ SupportedVideoFormats ext = false)
  /\ (SupportedRawFormats ext = true ->
      SupportedImageFormats ext = false /\ SupportedVideoFormats ext = false)
  /\ (SupportedVideoFormats ext = true ->
      SupportedImageFormats ext = false /\ SupportedRawFormats ext = false).
Proof.
  split; [|split]; intros H; split; unfold SupportedImageFormats, SupportedRawFormats,
    SupportedVideoFormats in *; table_cases H.
Qed.

(** ** Classification *)

Lemma lower_byte_separator (c : ascii) : isPathSeparator (lower_byte c) = isPathSeparator c.
Proof. destruct c as [[] [] [] [] [] [] [] []]; reflexivity. Qed.

Lemma lower_byte_dot (c : ascii) : Ascii.eqb (lower_byte c) "." = Ascii.eqb c ".".
Proof. destruct c as [[] [] [] [] [] [] [] []]; reflexivity. Qed.

Lemma lower_byte_idemp (c : ascii) : lower_byte (lower_byte c) = lower_byte c.
Proof. destruct c as [[] [] [] [] [] [] [] []]; reflexivity. Qed.

Lemma lower_byte_ascii (c : ascii) : (byte_of (lower_byte c) <? 128) = (byte_of c <? 128).
Proof. destruct c as [[] [] [] [] [] [] [] []]; reflexivity. Qed.

Lemma lower_ascii_idemp (s : string) : lower_ascii (lower_ascii s) = lower_ascii s.
Proof. induction s as [|c s IH]; simpl; [done|]. by rewrite lower_byte_idemp, IH. Qed.

Lemma is_ascii_lower (s : string) : is_ascii (lower_ascii s) = is_ascii s.
Proof. induction s as [|c s IH]; simpl; [done|]. by rewrite lower_byte_ascii, IH. Qed.

Lemma list_ascii_of_lower (s : string) :
  list_ascii_of_string (lower_ascii s) = map lower_byte (list_ascii_of_string s).
Proof. induction s as [|c s IH]; simpl; [done|]. by rewrite IH. Qed.

Lemma ext_scan_lower (l : list ascii) :
  forall seen, ext_scan (map lower_byte l) (lower_ascii seen) = lower_ascii (ext_scan l seen).
Proof.
  induction l as [|c l IH]; intros seen; simpl; [done|].
  rewrite lower_byte_separator, lower_byte_dot.
  destruct (isPathSeparator c); [done|].
  destruct (Ascii.eqb c "."); [done|].
  apply (IH (String c seen)).
Qed.

Lemma filepath_Ext_lower (path : string) :
  filepath_Ext (lower_ascii path) = lower_ascii (filepath_Ext path).
Proof.
  unfold filepath_Ext. rewrite list_ascii_of_lower, <- map_rev.
  apply (ext_scan_lower _ "").
Qed.

Lemma is_ascii_forallb (s : string) :
  is_ascii s = forallb (fun c => byte_of c <? 128) (list_ascii_of_string s).
Proof. induction s as [|c s IH]; simpl; [done|]. by rewrite IH. Qed.

Lemma ext_scan_ascii (l : list ascii) :
  forall seen,
    forallb (fun c => byte_of c <? 128) l = true ->
    is_ascii seen = true ->
    is_ascii (ext_scan l seen) = true.
Proof.
  induction l as [|c l IH]; intros seen Hl Hseen; simpl; [done|].
  simpl in Hl. apply andb_prop in Hl as [Hc Hl].
  destruct (isPathSeparator c); [done|].
  destruct (Ascii.eqb c "."); simpl; [by rewrite Hc, Hseen|].
  apply IH; [done|]. simpl. by rewrite Hc, Hseen.
Qed.

Lemma filepath_Ext_ascii (path : string) :
  is_ascii path = true -> is_ascii (filepath_Ext path) = true.
Proof.
  intros H. unfold filepath_Ext. apply ext_scan_ascii; [|done].
  rewrite is_ascii_forallb in H. rewrite forallb_forall in *.
  intros c Hc. apply H. by apply in_rev.
Qed.

(** X4.  For a path of ASCII bytes the class does not depend on the case
    of its letters: the path and its lower-case form have the same
    class, and the extension of the lower-case path is the lower-case
    extension. *)
Theorem classify_ignores_case (file : string) :
  is_ascii file = true ->
  classify (strings_ToLower file) = classify file
  /\ filepath_Ext (strings_ToLower file) = strings_ToLower (filepath_Ext file).
Proof.
  intros Hfile. pose proof (filepath_Ext_ascii file Hfile) as Hext.
  assert (strings_ToLower file = lower_ascii file) as Hf
    by (unfold strings_ToLower; by rewrite Hfile).
  assert (strings_ToLower (filepath_Ext file) = lower_ascii (filepath_Ext file)) as He
    by (unfold strings_ToLower; by rewrite Hext).
  rewrite Hf, He, filepath_Ext_lower. split; [|done].
  unfold classify. rewrite filepath_Ext_lower, He.
  unfold strings_ToLower. by rewrite is_ascii_lower, Hext, lower_ascii_idemp.
Qed.

(** ** [processFile] and the worker loop *)

(** X5.  The worker loop sends for a file what [processFile] sends for it,
    in the same world; a file of no supported class sends nothing,
    touches nothing and advances no counter. *)
Theorem worker_dispatch_is_processFile (n : seen) (sent : list imageInfo) (file : string) (w : World) :
  workOne (n, sent) file w
  = ((seen_after n file, (sent ++ option_list (fst (processFile file w)))%list),
     snd (processFile file w))
  /\ (classify file = Unsupported ->
      processFile file w = (None, w) /\ workOne (n, sent) file w = ((n, sent), w)).
Proof.
  unfold workOne, processFile, seen_after, classify.
  destruct (SupportedImageFormats _); [|destruct (SupportedRawFormats _);
    [|destruct (SupportedVideoFormats _)]]; unfold bind, ret.
  - split; [by destruct (processImageFile file w)|discriminate].
  - split; [by destruct (processRawFile file w)|discriminate].
  - split; [by destruct (processVideoFile file w)|discriminate].
  - simpl. rewrite app_nil_r. done.
Qed.

(** ** [ExtractDate] and its tiers *)

Lemma ExtractDate_error (filePath filename : string) (w : World) (e : string) :
  fst (ExtractDate filePath filename w) = Err e ->
  os_Stat (disk w (S (clock w))) filePath = Err e
  /\ is_ok (fst (extractExifDate filePath w)) = false
  /\ is_ok (extractDateFromFilename filename) = false.
Proof.
  unfold ExtractDate, bind.
  pose proof (extractExifDate_world filePath w) as Hw.
  destruct (extractExifDate filePath w) as [[d|e1] w1]; simpl in *; [discriminate|]. subst w1.
  destruct (extractDateFromFilename filename) as [d|e2]; simpl; [discriminate|].
  unfold extractFileModTime, bind, ask, ret. simpl.
  destruct (os_Stat _ filePath) as [info|e3]; simpl; [discriminate|].
  by intros [= ->].
Qed.

(** X6.  [ExtractDate] returns an error only when all three tiers fail, and
    the error is then the one of [os.Stat] in [extractFileModTime]. *)
Theorem ExtractDate_fails_only_with_stat (filePath filename : string) (w : World) (e : string) :
  fst (ExtractDate filePath filename w) = Err e ->
  os_Stat (disk w (S (clock w))) filePath = Err e
  /\ is_ok (fst (extractExifDate filePath w)) = false
  /\ is_ok (extractDateFromFilename filename) = false.
Proof. apply ExtractDate_error. Qed.

Lemma ExtractDate_fails_only_with_stat_witness :
  os_Stat (disk (start (steady no_disk)) 1) "src/shot.nef" = Err "stat"
  /\ is_ok (fst (extractExifDate "src/shot.nef" (start (steady no_disk)))) = false
  /\ is_ok (extractDateFromFilename "shot.nef") = false.
Proof.
  apply (ExtractDate_fails_only_with_stat "src/shot.nef" "shot.nef" (start (steady no_disk))).
  reflexivity.
Defined.

Lemma match_here_needs_digit (c : ascii) (s : string) :
  isDigit c = false -> match_here dateRe (String c s) = None.
Proof. intros H. unfold dateRe. cbn -[isDigit]. by rewrite H. Qed.

(** X7.  A filename without a decimal digit gives no date: the regular
    expression finds nothing in it. *)
Theorem filename_without_digit_has_no_date (filename : string) :
  has_digit filename = false ->
  FindString dateRe filename = None
  /\ extractDateFromFilename filename = Err "no date found in filename".
Proof.
  intros H.
  assert (FindString dateRe filename = None) as Hnone.
  { induction filename as [|c s IH]; [reflexivity|].
    simpl in H. apply orb_false_elim in H as [Hc Hs].
    cbn [FindString]. rewrite (match_here_needs_digit c s Hc). by apply IH. }
  split; [done|]. unfold extractDateFromFilename. by rewrite Hnone.
Qed.

(** ** Dates that come out of a filename *)

Lemma parse_chunks_month (cs : list chunk) :
  forall value f f', month_read f -> parse_chunks cs value f = Some f' -> month_read f'.
Proof.
  induction cs as [|ch cs IH]; intros value f f' Hf; cbn [parse_chunks].
  - destruct (String.eqb value ""); [|discriminate]. by intros [= <-].
  - destruct ch.
    + destruct value as [|c0 rest]; [discriminate|].
      destruct (isDigit c0); [|discriminate].
      destruct (split_at 4 (String c0 rest)) as [[p q]|]; [|discriminate].
      destruct (atoi p); [|discriminate]. by apply IH.
    + destruct (split_at 2 value) as [[p q]|]; [|discriminate].
      destruct (atoi p); [|discriminate]. by apply IH.
    + destruct (getnum_fixed value) as [[m rest]|]; [|discriminate].
      destruct ((m <=? 0) || (12 <? m)) eqn:Hm; [discriminate|].
      apply orb_false_elim in Hm as [H1 H2]. apply Z.leb_gt in H1. apply Z.ltb_ge in H2.
      apply IH. right. simpl. lia.
    + destruct (getnum_fixed value) as [[d rest]|]; [|discriminate]. by apply IH.
    + destruct value as [|c' rest]; [discriminate|].
      destruct (Ascii.eqb c c'); [|discriminate]. by apply IH.
Qed.

Lemma time_Parse_valid (layout value : string) (t : Time) :
  time_Parse layout value = Ok t -> valid_date t.
Proof.
  unfold time_Parse.
  destruct (lex_layout _ layout) as [cs|]; [|discriminate].
  destruct (parse_chunks cs value _) as [f|] eqn:Hp; [|discriminate].
  apply parse_chunks_month in Hp; [|by left].
  destruct ((_ <? 1) || (_ <? _)) eqn:Hd; [discriminate|].
  apply orb_false_elim in Hd as [H1 H2]. apply Z.ltb_ge in H1. apply Z.ltb_ge in H2.
  intros [= <-]. unfold valid_date. simpl.
  destruct (f_month f <? 0) eqn:Hm; [apply Z.ltb_lt in Hm|apply Z.ltb_ge in Hm];
    destruct Hp as [Hp|Hp]; lia.
Qed.

Lemma try_layouts_valid (layouts : list string) (m d : string) :
  try_layouts layouts m = Some d -> exists t, d = Format_ISO t /\ valid_date t.
Proof.
  induction layouts as [|layout more IH]; simpl; [discriminate|].
  destruct (time_Parse layout m) as [t|e] eqn:Hp; [|exact IH].
  intros [= <-]. exists t. split; [done|]. by apply (time_Parse_valid layout m).
Qed.

Lemma extractDateFromFilename_ISO (filename date : string) :
  extractDateFromFilename filename = Ok date ->
  exists t, date = Format_ISO t /\ valid_date t.
Proof.
  unfold extractDateFromFilename.
  destruct (FindString dateRe filename) as [m|]; [|discriminate].
  destruct (try_layouts dateLayouts m) as [d|] eqn:Ht; [|discriminate].
  intros [= <-]. by apply (try_layouts_valid dateLayouts m).
Qed.

(** X8.  Every date that [extractDateFromFilename] returns is the ISO form
    of a date of the calendar: month 1 to 12, day 1 to the length of
    that month in that year (29 February only in leap years). *)
Theorem filename_date_is_calendar_date (filename date : string) :
  extractDateFromFilename filename = Ok date ->
  exists t, date = Format_ISO t /\ valid_date t.
Proof. apply extractDateFromFilename_ISO. Qed.

Lemma filename_date_is_calendar_date_witness :
  exists t, "2020-02-29" = Format_ISO t /\ valid_date t.
Proof.
  apply (filename_date_is_calendar_date "IMG_20200229.jpg" "2020-02-29"). reflexivity.
Defined.

(** ** Raw files and videos on a disk that does not change *)

Lemma append_not_empty (s : string) (c : ascii) (s' : string) : s +:+ String c s' <> "".
Proof. by destruct s. Qed.

Lemma Format_ISO_not_empty (t : Time) : Format_ISO t <> "".
Proof.
  unfold Format_ISO. intros H.
  destruct (appendInt (year t) 4) as [|c s]; simpl in H; discriminate.
Qed.

Lemma ExtractDate_gives_ISO (filePath filename : string) (w : World) (d : string) :
  fst (ExtractDate filePath filename w) = Ok d -> exists t, d = Format_ISO t.
Proof.
  unfold ExtractDate, bind.
  destruct (extractExifDate filePath w) as [[d1|e1] w1] eqn:Hexif; simpl.
  - intros [= <-]. revert Hexif. unfold extractExifDate, bind, ask, ret.
    destruct (os_Open _ filePath) as [c|]; [|discriminate].
    destruct (exif_Decode c) as [x|]; [|discriminate].
    destruct (DateTime x) as [t|]; [|discriminate]. intros [= <- _]. eauto.
  - destruct (extractDateFromFilename filename) as [d2|e2] eqn:Hname; simpl.
    + intros [= <-]. destruct (extractDateFromFilename_ISO filename d2 Hname) as (t & Ht & _).
      eauto.
    + unfold extractFileModTime, bind, ask, ret.
      destruct (os_Stat _ filePath) as [info|]; simpl; [|discriminate].
      intros [= <-]. eauto.
Qed.

Lemma processVideoFile_as_raw (filePath : string) : processVideoFile filePath = processRawFile filePath.
Proof. reflexivity. Qed.

Lemma processRawFile_dated (filePath : string) (w : World) (r : imageInfo) :
  (forall t, (clock w <= t)%nat ->
             os_Stat (disk w t) filePath = os_Stat (disk w (clock w)) filePath) ->
  fst (processRawFile filePath w) = Some r ->
  exists t, isoDate r = Format_ISO t.
Proof.
  intros Hsteady. unfold processRawFile, bind at 1, ask.
  destruct (os_Stat (disk w (clock w)) filePath) as [info|e] eqn:Hstat; [|discriminate].
  unfold bind at 1.
  pose proof (ExtractDate_gives_ISO filePath (filepath_Base filePath) (tick w)) as Hiso.
  pose proof (ExtractDate_error filePath (filepath_Base filePath) (tick w)) as Herr.
  destruct (ExtractDate filePath (filepath_Base filePath) (tick w)) as [[d|e] w1]; simpl in *.
  - intros [= <-]. simpl. by apply Hiso.
  - destruct (Herr e eq_refl) as (Hfail & _). rewrite Hsteady in Hfail by lia.
    discriminate.
Qed.

(** X11.  On a disk that answers [os.Stat] for the file the same way during
    the whole call, every record that [processRawFile] or
    [processVideoFile] sends carries the ISO form of a date, never the
    empty string. *)
Theorem raw_and_video_dated_on_steady_disk (filePath : string) (w : World) (r : imageInfo) :
  (forall t, (clock w <= t)%nat ->
             os_Stat (disk w t) filePath = os_Stat (disk w (clock w)) filePath) ->
  size_fingerprinted filePath w r ->
  (exists t, isoDate r = Format_ISO t) /\ isoDate r <> "".
Proof.
  intros Hsteady Hsent.
  assert (exists t, isoDate r = Format_ISO t) as [t Ht].
  { destruct Hsent as [H|H]; [|rewrite processVideoFile_as_raw in H];
      by apply (processRawFile_dated filePath w). }
  split; [eauto|]. rewrite Ht. apply Format_ISO_not_empty.
Qed.

Lemma raw_and_video_dated_on_steady_disk_witness :
  (exists t, isoDate (mkImageInfo 5000 "src/a.mp4" "2021-07-08") = Format_ISO t)
  /\ isoDate (mkImageInfo 5000 "src/a.mp4" "2021-07-08") <> "".
Proof.
  apply (raw_and_video_dated_on_steady_disk "src/a.mp4" demo_world).
  - intros t _. reflexivity.
  - right. reflexivity.
Defined.

(** ** More on the reducer *)

Lemma filterStep_dom st r size :
  dom (fst (filterStep st r size)) = {[hash r]} ∪ dom (fst st).
Proof.
  destruct st as [u hs]. unfold filterStep.
  destruct (negb _ || _) eqn:Hcase; simpl.
  - by rewrite dom_insert_L.
  - apply orb_false_elim in Hcase as [Hex _]. apply negb_false_iff in Hex.
    apply bool_decide_eq_true_1 in Hex. apply elem_of_dom in Hex.
    symmetry. apply subseteq_union_1_L. by apply singleton_subseteq_l.
Qed.

Lemma filterLoop_dom (files : list imageInfo) :
  forall st w unique,
    fst (filterLoop files st w) = Returns unique ->
    dom unique = fingerprints files ∪ dom (fst st).
Proof.
  unfold fingerprints.
  induction files as [|r rest IH]; intros st w unique.
  - simpl. intros [= <-]. by rewrite (left_id_L ∅ (∪)).
  - cbn [filterLoop]. unfold bind, ask.
    destruct (os_Stat _ (filename r)) as [info|e]; [|discriminate].
    intros Hrun. rewrite (IH _ _ _ Hrun), filterStep_dom, fmap_cons, list_to_set_cons.
    by rewrite (assoc_L (∪)), (comm_L (∪) _ {[hash r]}).
Qed.

(** X12.  Whatever the sizes are and however the disk changes, a map that
    [filterUniqueFiles] returns has exactly the fingerprints of the
    stream as keys, holds under each key a record of the stream with
    that fingerprint, and has no more entries than the stream has
    records. *)
Theorem filterUniqueFiles_keys_are_fingerprints
    (files : list imageInfo) (w : World) (unique : gmap Z imageInfo) :
  fst (filterUniqueFiles files w) = Returns unique ->
  dom unique = fingerprints files
  /\ (forall h k, unique !! h = Some k -> hash k = h /\ k ∈ files)
  /\ (size unique <= length files)%nat.
Proof.
  intros Hrun. split; [|split].
  - rewrite (filterLoop_dom files (∅, ∅) w unique Hrun). simpl.
    by rewrite dom_empty_L, (right_id_L ∅ (∪)).
  - apply (filterUniqueFiles_keyed files w unique Hrun).
  - pose proof (keyed_values_submseteq files unique (filterUniqueFiles_keyed files w unique Hrun))
      as Hsub.
    apply submseteq_length in Hsub. rewrite length_fmap in Hsub.
    by rewrite length_map_to_list in Hsub.
Qed.

Lemma filterUniqueFiles_keys_are_fingerprints_witness :
  exists unique,
    fst (filterUniqueFiles demo_stream demo_world) = Returns unique
    /\ dom unique = fingerprints demo_stream
    /\ (size unique <= length demo_stream)%nat.
Proof.
  eexists. split; [reflexivity|].
  destruct (filterUniqueFiles_keys_are_fingerprints demo_stream demo_world _ eq_refl)
    as (Hdom & _ & Hsize).
  split; [exact Hdom|exact Hsize].
Defined.

(** X13.  The reducer panics exactly when [os.Stat] fails for one of the
    records, at the call made for it: the error is dropped and
    [Size()] is called on the nil [FileInfo]. *)
Theorem filterUniqueFiles_panics_iff (files : list imageInfo) (w : World) :
  fst (filterUniqueFiles files w) = Panics
  <-> exists i r, files !! i = Some r
                  /\ is_ok (os_Stat (disk w (clock w + i)) (filename r)) = false.
Proof.
  unfold filterUniqueFiles. generalize (∅ : gmap Z imageInfo, ∅ : gmap Z Z).
  revert w. induction files as [|r rest IH]; intros w st.
  - simpl. split; [discriminate|]. intros (i & r & Hi & _). by rewrite lookup_nil in Hi.
  - cbn [filterLoop]. unfold bind, ask.
    destruct (os_Stat (disk w (clock w)) (filename r)) as [info|e] eqn:Hstat.
    + rewrite IH. simpl. split.
      * intros (i & r' & Hi & Hfail). exists (S i), r'. split; [done|].
        by replace (clock w + S i)%nat with (S (clock w + i)) by lia.
      * intros ([|i] & r' & Hi & Hfail).
        -- simpl in Hi. injection Hi as <-. rewrite Nat.add_0_r, Hstat in Hfail. discriminate.
        -- exists i, r'. split; [done|].
           by replace (S (clock w + i)) with (clock w + S i)%nat by lia.
    + split; [|done]. intros _. exists 0%nat, r. split; [done|].
      by rewrite Nat.add_0_r, Hstat.
Qed.

Lemma first_largest_elem size l k : first_largest size l k -> k ∈ l.
Proof.
  intros (pre & post & -> & _). apply elem_of_app. right. apply list_elem_of_here.
Qed.

Lemma filterPure_order_independent size (files1 files2 : list imageInfo) :
  files1 ≡ₚ files2 ->
  no_ties size files1 ->
  fst (filterPure size files1 (∅, ∅)) = fst (filterPure size files2 (∅, ∅)).
Proof.
  intros Hperm Hties.
  destruct (filterPure_inv size files1) as [Hnone1 Hsome1].
  destruct (filterPure_inv size files2) as [Hnone2 Hsome2].
  apply map_eq. intros h.
  destruct (fst (filterPure size files1 (∅, ∅)) !! h) as [k1|] eqn:H1;
    destruct (fst (filterPure size files2 (∅, ∅)) !! h) as [k2|] eqn:H2; [|exfalso..|done].
  - destruct (Hsome1 _ _ H1) as (Hh1 & _ & Hfl1). destruct (Hsome2 _ _ H2) as (Hh2 & _ & Hfl2).
    pose proof (first_largest_elem _ _ _ Hfl1) as Hin1.
    pose proof (first_largest_elem _ _ _ Hfl2) as Hin2.
    f_equal. apply Hties; [done|by rewrite Hperm|congruence|].
    assert (size k1 <= size k2).
    { apply (first_largest_bound size files2); [done|by rewrite <- Hperm|congruence]. }
    assert (size k2 <= size k1).
    { apply (first_largest_bound size files1); [done|by rewrite Hperm|congruence]. }
    lia.
  - destruct (Hsome1 _ _ H1) as (Hh1 & _ & Hfl1).
    apply (Hnone2 _ H2 k1); [|done]. rewrite <- Hperm. by apply first_largest_elem in Hfl1.
  - destruct (Hsome2 _ _ H2) as (Hh2 & _ & Hfl2).
    apply (Hnone1 _ H1 k2); [|done]. rewrite Hperm. by apply first_largest_elem in Hfl2.
Qed.

(** X14.  When no two different records of the stream have both the same
    fingerprint and the same size, the map of the reducer does not
    depend on the order in which the records arrive (on a disk that
    answers [os.Stat] for their files, the same way throughout). *)
Theorem filterUniqueFiles_order_independent
    (d : Disk) (files1 files2 : list imageInfo) (w1 w2 : World) :
  files1 ≡ₚ files2 ->
  no_ties (size_on d) files1 ->
  (forall t r, r ∈ files1 -> os_Stat (disk w1 t) (filename r) = os_Stat d (filename r)) ->
  (forall t r, r ∈ files1 -> os_Stat (disk w2 t) (filename r) = os_Stat d (filename r)) ->
  (forall r, r ∈ files1 -> is_ok (os_Stat d (filename r)) = true) ->
  exists unique,
    fst (filterUniqueFiles files1 w1) = Returns unique
    /\ fst (filterUniqueFiles files2 w2) = Returns unique.
Proof.
  intros Hperm Hties Hs1 Hs2 Hok.
  exists (fst (filterPure (size_on d) files1 (∅, ∅))). split.
  - apply filterLoop_steady; [intros; by apply Hs1|done].
  - rewrite (filterPure_order_independent _ _ _ Hperm Hties).
    apply filterLoop_steady.
    + intros t r _ Hin. apply Hs2. by rewrite Hperm.
    + intros r Hin. apply Hok. by rewrite Hperm.
Qed.

Lemma filterUniqueFiles_order_independent_witness :
  exists unique,
    fst (filterUniqueFiles demo_stream demo_world) = Returns unique
    /\ fst (filterUniqueFiles (rev demo_stream) demo_world) = Returns unique.
Proof.
  apply (filterUniqueFiles_order_independent demo_disk demo_stream (rev demo_stream)
           demo_world demo_world).
  - unfold demo_stream. simpl. apply Permutation_rev.
  - intros r r' Hr Hr' Hh Hs. unfold demo_stream in Hr, Hr'.
    repeat (apply elem_of_cons in Hr as [->|Hr]);
      repeat (apply elem_of_cons in Hr' as [->|Hr']);
      try (by apply elem_of_nil in Hr); try (by apply elem_of_nil in Hr');
      try reflexivity; vm_compute in Hh; vm_compute in Hs; discriminate.
  - intros t r _. reflexivity.
  - intros t r _. reflexivity.
  - intros r Hin. unfold demo_stream in Hin.
    repeat (apply elem_of_cons in Hin as [->|Hin]; [reflexivity|]).
    by apply elem_of_nil in Hin.
Defined.

(** ** More on the ledger *)

Section LedgerMore.

Variable filepath_Join : string -> string -> string.

Abbreviation writeIdx := (writeIndexJSON filepath_Join).
Abbreviation idxOf destPath := (filepath_Join destPath "index.json").

(** X15.  [writeIndexJSON] touches nothing but its own [index.json]: every
    other ledger and every destination file is what it was, whether
    the call returns nil, returns an error or panics. *)
Theorem writeIndexJSON_touches_only_its_ledger
    (destPath : string) (mapping : gmap string string) (w : World) :
  let w' := snd (writeIdx destPath mapping w) in
  (forall p, p <> idxOf destPath -> ledgers w' !! p = ledgers w !! p)
  /\ dest w' = dest w.
Proof.
  unfold writeIndexJSON. run.
  destruct (os_OpenFile _ _); simpl; [|done].
  destruct (ledgers w !! idxOf destPath) as [c|] eqn:Hled; simpl.
  - destruct (json_Decode c) as [existing|e]; simpl; [|done].
    destruct (merge_mapping existing mapping) as [m|]; simpl; [|done].
    destruct (json_Encode_write _ _); simpl; split; try done;
      intros p Hp; by rewrite ?lookup_insert_ne.
  - destruct (json_Encode_write _ _); simpl; split; try done;
      intros p Hp; by rewrite ?lookup_insert_ne.
Qed.

(** X16.  The first write into a directory without [index.json], or with an
    empty one, that returns nil leaves a ledger that holds an object
    of valid UTF-8 strings with every key of the mapping, as
    [json_string] writes it; for a
    mapping of valid UTF-8 strings the object has exactly the entries
    of the mapping. *)
Theorem writeIndexJSON_creates_ledger
    (destPath : string) (mapping : gmap string string) (w : World) :
  ledgers w !! idxOf destPath = None \/ ledgers w !! idxOf destPath = Some IdxEmpty ->
  fst (writeIdx destPath mapping w) = Returns None ->
  exists m : gmap string string,
    ledgers (snd (writeIdx destPath mapping w)) !! idxOf destPath = Some (IdxObject m)
    /\ valid_strings m
    /\ (forall k, is_Some (mapping !! k) -> is_Some (m !! json_string k))
    /\ (valid_strings mapping -> m = mapping).
Proof.
  intros Hled Hret. rewrite (writeIndexJSON_fresh _ _ _ _ Hled Hret).
  rewrite lookup_insert_eq, (right_id_L ∅ (∪)).
  exists (json_roundtrip mapping). split; [done|]. split; [|split].
  - apply json_roundtrip_strings_valid.
  - intros k. apply json_roundtrip_is_Some.
  - apply json_roundtrip_valid.
Qed.

(** X17.  Two writes of entries for one key, both returning nil, key and
    values being valid UTF-8 as the strings of the ledger are: the
    later value stands, and writing the same mapping twice leaves what
    writing it once leaves. *)
Theorem writeIndexJSON_last_write_wins
    (destPath : string) (existing : gmap string string) (k v1 v2 : string) (w : World) :
  ledgers w !! idxOf destPath = Some (IdxObject existing) ->
  valid_strings existing ->
  json_string k = k -> json_string v1 = v1 -> json_string v2 = v2 ->
  fst (writeIdx destPath {[k := v1]} w) = Returns None ->
  let w1 := snd (writeIdx destPath {[k := v1]} w) in
  fst (writeIdx destPath {[k := v2]} w1) = Returns None ->
  let w2 := snd (writeIdx destPath {[k := v2]} w1) in
  ledgers w2 !! idxOf destPath = Some (IdxObject (<[k := v2]> existing))
  /\ (v1 = v2 -> ledgers w2 = ledgers w1).
Proof.
  intros Hled Hvalid Hk Hv1 Hv2 Hret1 w1 Hret2 w2.
  assert (valid_strings ({[k := v1]} ∪ existing)) as Hvalid1
    by (apply valid_strings_union; [by apply valid_strings_singleton|done]).
  assert (valid_strings ({[k := v2]} ∪ ({[k := v1]} ∪ existing))) as Hvalid2
    by (apply valid_strings_union; [by apply valid_strings_singleton|done]).
  assert (ledgers w1 = <[idxOf destPath := IdxObject ({[k := v1]} ∪ existing)]> (ledgers w))
    as Hw1.
  { subst w1. rewrite (writeIndexJSON_object _ _ _ _ _ Hled Hret1).
    by rewrite (json_roundtrip_valid _ Hvalid1). }
  assert (ledgers w1 !! idxOf destPath = Some (IdxObject ({[k := v1]} ∪ existing))) as Hled1
    by (rewrite Hw1; apply lookup_insert_eq).
  assert (ledgers w2
          = <[idxOf destPath := IdxObject ({[k := v2]} ∪ ({[k := v1]} ∪ existing))]> (ledgers w1))
    as Hw2.
  { subst w2. rewrite (writeIndexJSON_object _ _ _ _ _ Hled1 Hret2).
    by rewrite (json_roundtrip_valid _ Hvalid2). }
  assert (forall a b : string, ({[k := a]} ∪ ({[k := b]} ∪ existing) : gmap string string)
                               = <[k := a]> existing) as Hmerge.
  { intros a b. rewrite <- !insert_union_singleton_l. apply insert_insert_eq. }
  split.
  - by rewrite Hw2, lookup_insert_eq, Hmerge.
  - intros <-. rewrite Hw2, Hw1, insert_insert_eq, Hmerge.
    by rewrite <- insert_union_singleton_l.
Qed.

(** X18.  On a ledger that holds the JSON value [null], the decoded map is
    nil: a call with an entry to add panics at the assignment, after
    the file was opened and before it is truncated, so the ledger
    keeps its content. *)
Theorem writeIndexJSON_null_ledger_panics
    (destPath : string) (mapping : gmap string string) (w : World) :
  ledgers w !! idxOf destPath = Some IdxNull ->
  os_OpenFile (disk w (clock w)) (idxOf destPath) = true ->
  mapping <> ∅ ->
  fst (writeIdx destPath mapping w) = Panics
  /\ ledgers (snd (writeIdx destPath mapping w)) = ledgers w.
Proof.
  intros Hled Hopen Hne. unfold writeIndexJSON. run.
  rewrite Hopen. simpl. rewrite Hled. simpl.
  by rewrite bool_decide_eq_false_2.
Qed.

End LedgerMore.

Lemma writeIndexJSON_creates_ledger_witness :
  exists m : gmap string string,
    ledgers (snd (writeIndexJSON simple_Join "dst/2022-03-04" {[ "a.jpg" := "001.jpg" ]}
                    demo_world))
      !! "dst/2022-03-04/index.json"
    = Some (IdxObject m)
    /\ valid_strings m
    /\ (forall k, is_Some (({[ "a.jpg" := "001.jpg" ]} : gmap string string) !! k) ->
                  is_Some (m !! json_string k))
    /\ (valid_strings {[ "a.jpg" := "001.jpg" ]} -> m = {[ "a.jpg" := "001.jpg" ]}).
Proof.
  apply (writeIndexJSON_creates_ledger simple_Join "dst/2022-03-04"
           {[ "a.jpg" := "001.jpg" ]} demo_world).
  - left. reflexivity.
  - reflexivity.
Defined.

Lemma writeIndexJSON_last_write_wins_witness :
  let w := ledger_world (IdxObject {[ "a.jpg" := "001.jpg" ]}) in
  let w1 := snd (writeIndexJSON simple_Join "dst/2022-03-04" {[ "b.jpg" := "002.jpg" ]} w) in
  let w2 := snd (writeIndexJSON simple_Join "dst/2022-03-04" {[ "b.jpg" := "003.jpg" ]} w1) in
  ledgers w2 !! "dst/2022-03-04/index.json"
  = Some (IdxObject (<[ "b.jpg" := "003.jpg" ]> {[ "a.jpg" := "001.jpg" ]})).
Proof.
  intros w w1 w2.
  apply (writeIndexJSON_last_write_wins simple_Join "dst/2022-03-04"
           {[ "a.jpg" := "001.jpg" ]} "b.jpg" "002.jpg" "003.jpg" w);
    try reflexivity.
  by apply valid_strings_singleton.
Defined.

Lemma writeIndexJSON_null_ledger_panics_witness :
  fst (writeIndexJSON simple_Join "dst/2022-03-04" {[ "b.jpg" := "002.jpg" ]}
         (ledger_world IdxNull)) = Panics
  /\ ledgers (snd (writeIndexJSON simple_Join "dst/2022-03-04" {[ "b.jpg" := "002.jpg" ]}
                    (ledger_world IdxNull)))
     = ledgers (ledger_world IdxNull).
Proof.
  apply (writeIndexJSON_null_ledger_panics simple_Join "dst/2022-03-04"
           {[ "b.jpg" := "002.jpg" ]} (ledger_world IdxNull)).
  - reflexivity.
  - reflexivity.
  - intros H. apply (f_equal (fun m : gmap string string => m !! "b.jpg")) in H.
    vm_compute in H. discriminate.
Defined.

(** ** More on the run *)

Section RunMore.

Variable filepath_Join : string -> string -> string.
Variable filepath_Rel : string -> string -> result string.
Variable arrival : list string -> list string.
Variable iteration : gmap Z imageInfo -> list imageInfo.

Abbreviation place1 := (placeOne filepath_Join filepath_Rel).
Abbreviation Process := (ProcessFiles filepath_Join filepath_Rel arrival iteration).

Lemma placeOne_no_directory srcDir destDir c fileInfo w :
  os_MkdirAll (disk w (clock w)) (filepath_Join destDir (isoDate fileInfo)) = false ->
  place1 srcDir destDir c fileInfo w = (Returns (c, NoDirectory), tick w).
Proof. intros H. unfold placeOne, bind, ask. by rewrite H. Qed.

Lemma placeOne_no_relpath srcDir destDir c fileInfo w e :
  os_MkdirAll (disk w (clock w)) (filepath_Join destDir (isoDate fileInfo)) = true ->
  filepath_Rel srcDir (filename fileInfo) = Err e ->
  place1 srcDir destDir c fileInfo w = (Returns (c, NoRelPath), tick w).
Proof. intros H1 H2. unfold placeOne, bind, ask. by rewrite H1, H2. Qed.

Lemma placeOne_allocates srcDir destDir c fileInfo w relPath c' a :
  os_MkdirAll (disk w (clock w)) (filepath_Join destDir (isoDate fileInfo)) = true ->
  filepath_Rel srcDir (filename fileInfo) = Ok relPath ->
  fst (place1 srcDir destDir c fileInfo w) = Returns (c', a) ->
  is_Some (allocated a).
Proof.
  intros H1 H2. unfold placeOne, bind at 1, ask. rewrite H1, H2. simpl.
  unfold bind at 1. destruct (copyFile _ _ _) as [[e|] w2]; simpl.
  { intros [= <- <-]. eauto. }
  unfold bind. destruct (writeIndexJSON _ _ _ _) as [[[e|]|] w3]; simpl; [| |discriminate];
    intros [= <- <-]; eauto.
Qed.

(** X19.  An iteration of the copy loop that stops before a name is
    allocated (the directory cannot be made, or the path cannot be made
    relative) consumes no number and writes nothing: counters,
    destination files and ledgers are what they were. *)
Theorem placeOne_skip_changes_nothing
    (srcDir destDir : string) (c c' : counters) (fileInfo : imageInfo) (a : attempt) (w : World) :
  fst (place1 srcDir destDir c fileInfo w) = Returns (c', a) ->
  allocated a = None ->
  c' = c
  /\ dest (snd (place1 srcDir destDir c fileInfo w)) = dest w
  /\ ledgers (snd (place1 srcDir destDir c fileInfo w)) = ledgers w
  /\ (a = NoDirectory
      <-> os_MkdirAll (disk w (clock w)) (filepath_Join destDir (isoDate fileInfo)) = false).
Proof.
  intros Hrun Hnone.
  destruct (os_MkdirAll (disk w (clock w)) (filepath_Join destDir (isoDate fileInfo))) eqn:Hmk.
  - destruct (filepath_Rel srcDir (filename fileInfo)) as [relPath|e] eqn:Hrel.
    + destruct (placeOne_allocates _ _ _ _ _ _ _ _ Hmk Hrel Hrun) as [name Hname]. congruence.
    + rewrite (placeOne_no_relpath _ _ _ _ _ _ Hmk Hrel) in *. simpl in *.
      injection Hrun as <- <-. repeat split; done.
  - rewrite (placeOne_no_directory _ _ _ _ _ Hmk) in *. simpl in *.
    injection Hrun as <- <-. repeat split; done.
Qed.

Lemma ProcessFiles_walk_failed srcDir destDir numWorkers w e :
  filepath_Walk (disk w (clock w)) srcDir = Err e ->
  Process srcDir destDir numWorkers w = (WalkFailed e, tick w).
Proof. intros H. unfold ProcessFiles, bind, ask. by rewrite H. Qed.

Lemma ProcessFiles_no_workers srcDir destDir numWorkers w fileList :
  filepath_Walk (disk w (clock w)) srcDir = Ok fileList ->
  fileList <> [] ->
  numWorkers <= 0 ->
  Process srcDir destDir numWorkers w = (Crashed, tick w).
Proof.
  intros H Hne Hn. unfold ProcessFiles, bind, ask. rewrite H.
  rewrite bool_decide_eq_false_2 by done. apply Z.leb_le in Hn. by rewrite Hn.
Qed.

(** X21.  When the walk fails, when it finds no file, or when there is no
    worker, [ProcessFiles] ends without a summary and has written
    nothing: no destination file, no ledger. *)
Theorem ProcessFiles_without_work_writes_nothing
    (srcDir destDir : string) (numWorkers : Z) (w : World) :
  is_ok (filepath_Walk (disk w (clock w)) srcDir) = false
  \/ filepath_Walk (disk w (clock w)) srcDir = Ok []
  \/ numWorkers <= 0 ->
  let out := Process srcDir destDir numWorkers w in
  (forall s tr, fst out <> Finished s tr)
  /\ dest (snd out) = dest w
  /\ ledgers (snd out) = ledgers w
  /\ (forall e, filepath_Walk (disk w (clock w)) srcDir = Err e -> fst out = WalkFailed e)
  /\ (filepath_Walk (disk w (clock w)) srcDir = Ok [] -> fst out = NoFiles).
Proof.
  intros Hcase out. subst out.
  destruct (filepath_Walk (disk w (clock w)) srcDir) as [fileList|e] eqn:Hwalk.
  - destruct (decide (fileList = [])) as [->|Hne].
    + rewrite (ProcessFiles_no_files _ _ _ _ _ _ _ _ Hwalk). simpl.
      split; [intros s tr; discriminate|]. do 2 (split; [done|]). split; [discriminate|done].
    + destruct Hcase as [Hc|[Hc|Hc]]; [discriminate|congruence|].
      rewrite (ProcessFiles_no_workers _ _ _ _ _ Hwalk Hne Hc). simpl.
      split; [intros s tr; discriminate|]. do 2 (split; [done|]).
      split; [discriminate|congruence].
  - rewrite (ProcessFiles_walk_failed _ _ _ _ _ Hwalk). simpl.
    split; [intros s tr; discriminate|]. do 2 (split; [done|]).
    split; [by intros e' [= ->]|discriminate].
Qed.

(** X22.  The records the copy loop works on come from files of the walk,
    no file more often than the walk lists it, and no two of them have
    the same fingerprint: a run never places two files that the
    reducer takes for duplicates, and never a file twice. *)
Theorem ProcessFiles_places_listed_files_once
    (srcDir destDir : string) (numWorkers : Z) (w : World)
    (s : Summary) (tr : list (imageInfo * attempt)) (fileList : list string) :
  (forall l, arrival l ≡ₚ l) ->
  (forall m, iteration m ≡ₚ (map_to_list m).*2) ->
  filepath_Walk (disk w (clock w)) srcDir = Ok fileList ->
  fst (Process srcDir destDir numWorkers w) = Finished s tr ->
  filename <$> tr.*1 ⊆+ fileList
  /\ NoDup (hash <$> tr.*1)
  /\ (NoDup fileList -> NoDup (filename <$> tr.*1)).
Proof.
  intros Harr Hiter Hwalk Hrun.
  destruct (ProcessFiles_finished _ _ _ _ _ _ _ _ _ _ Hrun)
    as (fileList' & n & resultChan & uniqueFiles & c & w1 & w2
        & Hwalk' & _ & _ & Hwork & Hfilter & Hplace & _).
  rewrite Hwalk in Hwalk'. injection Hwalk' as <-.
  destruct (workLoop_shape (arrival fileList) (mkSeen 0 0 0) [] (tick w))
    as (n' & recs & Hw & _ & _ & _ & _ & Hsub & _).
  rewrite Hwork in Hw. simpl in Hw. injection Hw as <- <-.
  destruct (placeLoop_shape _ _ _ _ _ _ _ _ _ Hplace) as (Hfst & _ & _).
  assert (fst (filterUniqueFiles resultChan w1) = Returns uniqueFiles) as Hf
    by (by rewrite Hfilter).
  pose proof (filterUniqueFiles_keyed resultChan w1 uniqueFiles Hf) as Hkeyed.
  assert (filename <$> tr.*1 ⊆+ fileList) as Hincl.
  { rewrite Hfst, Hiter. etrans; [apply fmap_submseteq, keyed_values_submseteq, Hkeyed|].
    rewrite <- (Harr fileList). by apply sublist_submseteq. }
  split; [done|]. split.
  - rewrite Hfst, Hiter, keys_of_values; [apply NoDup_fst_map_to_list|].
    intros h k Hin. apply elem_of_map_to_list in Hin. by destruct (Hkeyed h k Hin).
  - intros Hnd. apply submseteq_Permutation in Hincl as [k Hk].
    rewrite Hk in Hnd. by apply NoDup_app in Hnd as [? _].
Qed.

(** X23.  In the summary of a run, "processed" is the number of files of the
    class that the walk listed, whether or not a record came out of
    them, and "copied" is the number of iterations of the copy loop
    that ended with the file placed and its ledger written. *)
Theorem summary_counts_what_happened
    (srcDir destDir : string) (numWorkers : Z) (w : World)
    (s : Summary) (tr : list (imageInfo * attempt)) (fileList : list string) :
  (forall l, arrival l ≡ₚ l) ->
  filepath_Walk (disk w (clock w)) srcDir = Ok fileList ->
  Z.of_nat (length fileList) < 2 ^ 64 ->
  Z.of_nat (length tr) < 2 ^ 64 ->
  fst (Process srcDir destDir numWorkers w) = Finished s tr ->
  s_imageCount s = Z.of_nat (count_class Image fileList)
  /\ s_rawCount s = Z.of_nat (count_class Raw fileList)
  /\ s_videoCount s = Z.of_nat (count_class Video fileList)
  /\ s_imageCopied s = Z.of_nat (placed_count Image tr)
  /\ s_rawCopied s = Z.of_nat (placed_count Raw tr)
  /\ s_videoCopied s = Z.of_nat (placed_count Video tr).
Proof.
  intros Harr Hwalk Hlen Hlentr Hrun.
  destruct (ProcessFiles_finished _ _ _ _ _ _ _ _ _ _ Hrun)
    as (fileList' & n & resultChan & uniqueFiles & c & w1 & w2
        & Hwalk' & _ & _ & Hwork & _ & Hplace & ->).
  rewrite Hwalk in Hwalk'. injection Hwalk' as <-.
  destruct (workLoop_shape (arrival fileList) (mkSeen 0 0 0) [] (tick w))
    as (n' & recs & Hw & Hi & Hr & Hv & Hrange & _ & _).
  rewrite Hwork in Hw. simpl in Hw. injection Hw as <- <-.
  assert (seen_in_range n) as (Hni & Hnr & Hnv).
  { apply Hrange. unfold seen_in_range. simpl. lia. }
  destruct (placeLoop_shape _ _ _ _ _ _ _ _ _ Hplace) as (_ & Hrep & _).
  assert (copied_in_range c) as (Hci & Hcr & Hcv).
  { rewrite Hrep. apply (replay_copied Image); [done|]. unfold copied_in_range. simpl. lia. }
  assert (forall cls, count_class cls (arrival fileList) = count_class cls fileList) as Hcnt.
  { intros cls. unfold count_class. by rewrite (Harr fileList). }
  assert (forall cls, Z.of_nat (count_class cls fileList) < 2 ^ 64) as Hbound.
  { intros cls. pose proof (count_class_le_length cls fileList). lia. }
  assert (forall cls, Z.of_nat (placed_count cls tr) < 2 ^ 64) as Hpbound.
  { intros cls. pose proof (length_filter
      (fun x : imageInfo * attempt => is_placed (snd x) = true /\ classify (filename (fst x)) = cls)
      tr) as Hl. unfold placed_count. lia. }
  assert (forall x k, 0 <= x < 2 ^ 64 -> 0 <= k < 2 ^ 64 -> uint64 x = uint64 (0 + k) -> x = k)
    as Hexact.
  { intros x k Hx Hk E. by rewrite Z.add_0_l, !uint64_small in E. }
  destruct (replay_copied Image tr ltac:(done) (mkCounters ∅ 0 0 0)) as [Eci _].
  destruct (replay_copied Raw tr ltac:(done) (mkCounters ∅ 0 0 0)) as [Ecr _].
  destruct (replay_copied Video tr ltac:(done) (mkCounters ∅ 0 0 0)) as [Ecv _].
  rewrite <- Hrep in Eci, Ecr, Ecv. simpl in Hi, Hr, Hv, Eci, Ecr, Ecv.
  rewrite Hcnt in Hi, Hr, Hv.
  pose proof (Hbound Image). pose proof (Hbound Raw). pose proof (Hbound Video).
  pose proof (Hpbound Image). pose proof (Hpbound Raw). pose proof (Hpbound Video).
  apply Hexact in Hi; [|lia..]. apply Hexact in Hr; [|lia..]. apply Hexact in Hv; [|lia..].
  apply Hexact in Eci; [|lia..]. apply Hexact in Ecr; [|lia..]. apply Hexact in Ecv; [|lia..].
  simpl. done.
Qed.

(** X24.  [main] with a program name and fewer than two arguments exits with
    status 1 without a single call into the operating system; with two
    or more it uses the first two, exits with 0 exactly when no file is
    found or the run prints its summary, with 1 exactly when the walk
    fails. *)
Theorem main_exit_status (Args : list string) (NumCPU : Z) (w : World) :
  let run := Process (nth 1 Args "") (nth 2 Args "") NumCPU w in
  ((0 < length Args < 3)%nat ->
   main filepath_Join filepath_Rel arrival iteration Args NumCPU w = (1, w))
  /\ ((3 <= length Args)%nat ->
      snd (main filepath_Join filepath_Rel arrival iteration Args NumCPU w) = snd run
      /\ (fst (main filepath_Join filepath_Rel arrival iteration Args NumCPU w) = 0
          <-> fst run = NoFiles \/ exists s tr, fst run = Finished s tr)
      /\ (fst (main filepath_Join filepath_Rel arrival iteration Args NumCPU w) = 1
          <-> exists e, fst run = WalkFailed e)).
Proof.
  unfold main. split.
  - intros [Hpos Hlen]. apply Nat.ltb_lt in Hlen. rewrite Hlen.
    destruct Args; [simpl in Hpos; lia|done].
  - intros Hlen. apply Nat.ltb_ge in Hlen. rewrite Hlen. unfold bind, ret.
    destruct (Process _ _ NumCPU w) as [[e| | |s tr] w']; simpl.
    + split; [done|]. split; [split; [discriminate|intros [?|(? & ? & ?)]; discriminate]|].
      split; eauto.
    + split; [done|]. split; [split; eauto|]. split; [discriminate|]. intros [? ?]; discriminate.
    + split; [done|]. split; [split; [discriminate|intros [?|(? & ? & ?)]; discriminate]|].
      split; [discriminate|]. intros [? ?]; discriminate.
    + split; [done|]. split; [split; eauto|]. split; [discriminate|]. intros [? ?]; discriminate.
Qed.

End RunMore.

Lemma filename_without_digit_has_no_date_witness :
  FindString dateRe "holiday-photo.jpg" = None
  /\ extractDateFromFilename "holiday-photo.jpg" = Err "no date found in filename".
Proof. apply (filename_without_digit_has_no_date "holiday-photo.jpg"). reflexivity. Defined.

(** ** ISO dates in filenames *)

Lemma four_digits_all (y : Z) : 0 <= y <= 9999 -> four_digits y = true.
Proof.
  intros Hy.
  assert (forallb four_digits (seqZ 0 10000) = true) as Hall by (vm_compute; reflexivity).
  rewrite forallb_forall in Hall. apply Hall. apply list_elem_of_In, elem_of_seqZ. lia.
Qed.

Lemma two_digits_all (n : Z) : 0 <= n <= 99 -> two_digits n = true.
Proof.
  intros Hn.
  assert (forallb two_digits (seqZ 0 100) = true) as Hall by (vm_compute; reflexivity).
  rewrite forallb_forall in Hall. apply Hall. apply list_elem_of_In, elem_of_seqZ. lia.
Qed.

Lemma atoi_digit_head (c : ascii) (s : string) :
  isDigit c = true ->
  atoi (String c s) = match leadingInt (String c s) 0 with
                      | (x, EmptyString) => Some x
                      | _ => None
                      end.
Proof.
  intros H. destruct c as [[] [] [] [] [] [] [] []]; try discriminate H; reflexivity.
Qed.

Lemma FindString_skips_non_digits (pre s : string) :
  has_digit pre = false -> FindString dateRe (pre +:+ s) = FindString dateRe s.
Proof.
  induction pre as [|c pre IH]; intros H; [done|].
  simpl in H. apply orb_false_elim in H as [Hc Hpre].
  change (String c pre +:+ s) with (String c (pre +:+ s)).
  cbn [FindString]. rewrite (match_here_needs_digit c _ Hc). by apply IH.
Qed.

Lemma ISO_text (t : Time) :
  valid_date t -> 0 <= year t <= 9999 ->
  exists a b c d e f g h,
    Format_ISO t
    = String a (String b (String c (String d (String "-"
        (String e (String f (String "-" (String g (String h "")))))))))
    /\ isDigit a = true /\ isDigit b = true /\ isDigit c = true /\ isDigit d = true
    /\ isDigit e = true /\ isDigit f = true /\ isDigit g = true /\ isDigit h = true
    /\ ((digit_val a * 10 + digit_val b) * 10 + digit_val c) * 10 + digit_val d = year t
    /\ digit_val e * 10 + digit_val f = month t
    /\ digit_val g * 10 + digit_val h = day t.
Proof.
  intros [Hm Hd] Hy.
  assert (day t <= 31) as Hd31.
  { destruct Hd as [_ Hd]. unfold daysIn in Hd.
    repeat match type of Hd with context [if ?b then _ else _] => destruct b end; lia. }
  pose proof (four_digits_all (year t) Hy) as H4.
  pose proof (two_digits_all (month t) ltac:(lia)) as H2m.
  pose proof (two_digits_all (day t) ltac:(lia)) as H2d.
  unfold four_digits in H4. unfold two_digits in H2m, H2d.
  unfold Format_ISO, appendInt. rewrite (proj2 (Z.ltb_ge _ _)) by lia.
  destruct (pad 4 (year t)) as [|a [|b [|c [|d [|? ?]]]]]; try discriminate H4.
  destruct (pad 2 (month t)) as [|e [|f [|? ?]]]; try discriminate H2m.
  destruct (pad 2 (day t)) as [|g [|h [|? ?]]]; try discriminate H2d.
  do 4 (apply andb_prop in H4 as [H4 ?]).
  do 2 (apply andb_prop in H2m as [H2m ?]).
  do 2 (apply andb_prop in H2d as [H2d ?]).
  exists a, b, c, d, e, f, g, h. simpl.
  split; [done|]. do 8 (split; [done|]). split; [|split]; by apply Z.eqb_eq.
Qed.

Lemma ISO_roundtrip_core (a b c d e f g h : ascii) (y m dd : Z) (post : string) :
  isDigit a = true -> isDigit b = true -> isDigit c = true -> isDigit d = true ->
  isDigit e = true -> isDigit f = true -> isDigit g = true -> isDigit h = true ->
  ((digit_val a * 10 + digit_val b) * 10 + digit_val c) * 10 + digit_val d = y ->
  digit_val e * 10 + digit_val f = m ->
  digit_val g * 10 + digit_val h = dd ->
  valid_date (mkTime y m dd) ->
  let text := String a (String b (String c (String d (String "-"
                (String e (String f (String "-" (String g (String h ""))))))))) in
  match_here dateRe (text +:+ post) = Some text
  /\ time_Parse "2006-01-02" text = Ok (mkTime y m dd).
Proof.
  intros Ha Hb Hc Hd He Hf Hg Hh Hy Hm Hdd [Hvm Hvd] text. subst text. split.
  - unfold dateRe. lazy beta iota delta [String.append]. fold String.append.
    cbn -[isDigit]. rewrite Ha, Hb, Hc, Hd. cbn -[isDigit].
    rewrite He, Hf. cbn -[isDigit]. rewrite Hg, Hh. reflexivity.
  - unfold time_Parse. cbn -[parse_chunks]. cbn -[isDigit atoi getnum_fixed Z.add Z.mul].
    rewrite Ha. rewrite (atoi_digit_head a _ Ha). cbn -[isDigit Z.add Z.mul digit_val].
    rewrite Ha, Hb, Hc, Hd. cbn -[isDigit Z.add Z.mul digit_val].
    rewrite He, Hf. cbn -[isDigit Z.add Z.mul digit_val Z.leb Z.ltb].
    rewrite Hm. simpl in Hvm, Hvd.
    rewrite (proj2 (Z.leb_gt m 0)) by lia. rewrite (proj2 (Z.ltb_ge 12 m)) by lia.
    cbn -[isDigit Z.add Z.mul digit_val Z.leb Z.ltb].
    rewrite Hg, Hh. cbn -[isDigit Z.add Z.mul digit_val Z.leb Z.ltb daysIn].
    rewrite Hdd.
    replace ((((0 * 10 + digit_val a) * 10 + digit_val b) * 10 + digit_val c) * 10 + digit_val d)
      with y by lia.
    rewrite (proj2 (Z.ltb_ge m 0)) by lia. rewrite (proj2 (Z.ltb_ge dd 0)) by lia.
    rewrite (proj2 (Z.ltb_ge dd 1)) by lia. rewrite (proj2 (Z.ltb_ge (daysIn m y) dd)) by lia.
    reflexivity.
Qed.

Lemma FindString_here (re : regex) (s m : string) :
  match_here re s = Some m -> FindString re s = Some m.
Proof. intros H. destruct s; cbn [FindString]; by rewrite H. Qed.

(** X9.  A filename that holds the ISO form of a calendar date of the years
    0 to 9999, after a prefix without digits and before any suffix,
    resolves to that very date; [time.Parse] reads back what [Format]
    printed. *)
Theorem ISO_date_in_filename_resolves (pre post : string) (t : Time) :
  valid_date t ->
  0 <= year t <= 9999 ->
  has_digit pre = false ->
  extractDateFromFilename (pre +:+ Format_ISO t +:+ post) = Ok (Format_ISO t)
  /\ time_Parse "2006-01-02" (Format_ISO t) = Ok t.
Proof.
  intros Hvalid Hyear Hpre.
  destruct (ISO_text t Hvalid Hyear)
    as (a & b & c & d & e & f & g & h & Htext & Ha & Hb & Hc & Hd & He & Hf & Hg & Hh
        & Hy & Hm & Hdd).
  destruct t as [y m dd]. simpl in Hy, Hm, Hdd.
  destruct (ISO_roundtrip_core a b c d e f g h y m dd post
              Ha Hb Hc Hd He Hf Hg Hh Hy Hm Hdd Hvalid) as [Hmatch Hparse].
  rewrite <- Htext in Hmatch, Hparse. split; [|exact Hparse].
  unfold extractDateFromFilename.
  rewrite (FindString_skips_non_digits pre _ Hpre), (FindString_here _ _ _ Hmatch).
  unfold dateLayouts. cbn [try_layouts]. by rewrite Hparse.
Qed.

Lemma ISO_date_in_filename_resolves_witness :
  extractDateFromFilename ("holiday " +:+ Format_ISO (mkTime 2019 7 4) +:+ " beach.png")
  = Ok (Format_ISO (mkTime 2019 7 4))
  /\ time_Parse "2006-01-02" (Format_ISO (mkTime 2019 7 4)) = Ok (mkTime 2019 7 4).
Proof.
  apply (ISO_date_in_filename_resolves "holiday " " beach.png" (mkTime 2019 7 4)).
  - repeat split; vm_compute; discriminate.
  - split; vm_compute; discriminate.
  - reflexivity.
Defined.

(** ** A placed file is copied and recorded *)

Lemma copyFile_nil_dest (src dst : string) (w w' : World) :
  copyFile src dst w = (None, w') -> dest w' !! dst = Some (CopyOf src).
Proof.
  unfold copyFile. run.
  destruct (os_Open _ src); simpl; [|discriminate].
  destruct (os_Create _ dst); simpl; [|discriminate].
  destruct (io_Copy _ src dst); simpl; [|discriminate].
  intros [= <-]. simpl. apply lookup_insert_eq.
Qed.

Section Recorded.

Variable filepath_Join : string -> string -> string.
Variable filepath_Rel : string -> string -> result string.

Lemma copyFile_ledgers (src dst : string) (w : World) :
  ledgers (snd (copyFile src dst w)) = ledgers w.
Proof.
  unfold copyFile. run.
  destruct (os_Open _ src); simpl; [|done].
  destruct (os_Create _ dst); simpl; [|done].
  by destruct (io_Copy _ src dst).
Qed.

Lemma writeIndexJSON_nil_entry (destPath k v : string) (w w' : World) :
  writeIndexJSON filepath_Join destPath {[k := v]} w = (Returns None, w') ->
  dest w' = dest w
  /\ exists m, ledgers w' !! filepath_Join destPath "index.json" = Some (IdxObject m)
               /\ is_Some (m !! json_string k)
               /\ (json_string k = k -> json_string v = v ->
                   (forall existing,
                      ledgers w !! filepath_Join destPath "index.json"
                      = Some (IdxObject existing) -> valid_strings existing) ->
                   m !! k = Some v).
Proof.
  unfold writeIndexJSON. run.
  destruct (os_OpenFile _ _); simpl; [|discriminate].
  assert (forall m : gmap string string, ({[k := v]} ∪ m) !! k = Some v) as Hhit.
  { intros m. apply lookup_union_Some_l. apply lookup_singleton_eq. }
  assert (forall m : gmap string string,
            is_Some (json_roundtrip ({[k := v]} ∪ m) !! json_string k)) as Hsome.
  { intros m. apply json_roundtrip_is_Some. rewrite Hhit. eauto. }
  assert (forall m : gmap string string,
            json_string k = k -> json_string v = v -> valid_strings m ->
            json_roundtrip ({[k := v]} ∪ m) !! k = Some v) as Hvalid.
  { intros m Hk Hv Hm. rewrite json_roundtrip_valid; [apply Hhit|].
    apply valid_strings_union; [by apply valid_strings_singleton|done]. }
  destruct (ledgers w !! filepath_Join destPath "index.json") as [[|m| |raw]|]; simpl;
    try discriminate.
  - destruct (json_Encode_write _ _); simpl; [|discriminate].
    intros [= <-]. simpl. split; [done|]. eexists. rewrite lookup_insert_eq.
    split; [done|]. split; [apply Hsome|].
    intros Hk Hv _. apply Hvalid; auto using valid_strings_empty.
  - destruct (json_Encode_write _ _); simpl; [|discriminate].
    intros [= <-]. simpl. split; [done|]. eexists. rewrite lookup_insert_eq.
    split; [done|]. split; [apply Hsome|].
    intros Hk Hv Hm. apply Hvalid; auto.
  - destruct (json_Encode_write _ _); simpl; [|discriminate].
    intros [= <-]. simpl. split; [done|]. eexists. rewrite lookup_insert_eq.
    split; [done|]. split; [apply Hsome|].
    intros Hk Hv _. apply Hvalid; auto using valid_strings_empty.
Qed.

(** X20.  An iteration of the copy loop that ends with [Placed] has copied
    the source to the allocated name in the directory of the date, and
    the ledger of that directory holds an object with the relative
    path of the source as a key, as [json_string] writes it.  When the
    relative path and the name are valid UTF-8, as the strings of the
    ledger before the call are, the object maps the relative path to
    the name. *)
Theorem placed_means_copied_and_recorded
    (srcDir destDir : string) (c c' : counters) (fileInfo : imageInfo) (name : string) (w : World) :
  fst (placeOne filepath_Join filepath_Rel srcDir destDir c fileInfo w)
  = Returns (c', Placed name) ->
  let w' := snd (placeOne filepath_Join filepath_Rel srcDir destDir c fileInfo w) in
  let destPath := filepath_Join destDir (isoDate fileInfo) in
  name = name_for c fileInfo
  /\ dest w' !! filepath_Join destPath name = Some (CopyOf (filename fileInfo))
  /\ exists relPath m,
       filepath_Rel srcDir (filename fileInfo) = Ok relPath
       /\ ledgers w' !! filepath_Join destPath "index.json" = Some (IdxObject m)
       /\ is_Some (m !! json_string relPath)
       /\ (json_string relPath = relPath -> json_string name = name ->
           (forall existing,
              ledgers w !! filepath_Join destPath "index.json" = Some (IdxObject existing) ->
              valid_strings existing) ->
           m !! relPath = Some name).
Proof.
  intros Hrun w' destPath. subst w' destPath.
  destruct (placeOne filepath_Join filepath_Rel srcDir destDir c fileInfo w) as [r w'] eqn:Hone.
  simpl in *. subst r. revert Hone.
  unfold placeOne, bind at 1, ask.
  destruct (os_MkdirAll _ _); simpl; [|discriminate].
  destruct (filepath_Rel srcDir (filename fileInfo)) as [relPath|e]; simpl; [|discriminate].
  unfold bind at 1.
  destruct (copyFile _ _ (tick w)) as [[e|] w2] eqn:Hcopy; simpl; [discriminate|].
  assert (ledgers w2 = ledgers w) as Hsame.
  { match type of Hcopy with
    | copyFile ?a ?b ?w0 = _ => pose proof (copyFile_ledgers a b w0) as H
    end.
    by rewrite Hcopy in H. }
  unfold bind.
  destruct (writeIndexJSON _ _ _ w2) as [[[e|]|] w3] eqn:Hwrite; simpl; try discriminate.
  intros [= <- <- <-].
  apply copyFile_nil_dest in Hcopy.
  apply writeIndexJSON_nil_entry in Hwrite as (Hdest & m & Hled & Hsome & Hm).
  split; [reflexivity|]. split; [by rewrite Hdest|].
  exists relPath, m. split; [done|]. split; [done|]. split; [done|].
  intros Hk Hv Hexisting. apply Hm; auto.
  intros existing. rewrite Hsame. apply Hexisting.
Qed.

End Recorded.

(** ** The layouts that are never used *)

(** X10.  For every filename, trying the six layouts of [dateLayouts] on the
    text the regular expression finds gives what trying only
    [2006-01-02], [02/01/2006], [20060102] and [060102] gives: the
    entries [02-01-2006] and [2006/01/02] never produce a date. *)
Theorem dateLayouts_two_entries_never_used (filename m : string) :
  FindString dateRe filename = Some m ->
  try_layouts dateLayouts m
  = try_layouts ["2006-01-02"; "02/01/2006"; "20060102"; "060102"] m
  /\ is_ok (time_Parse "02-01-2006" m) = false
  /\ is_ok (time_Parse "2006/01/02" m) = false.
Proof.
  intros Hfind. destruct (two_layouts_never_parse filename m Hfind) as [H2 H3].
  split; [|done]. unfold dateLayouts. cbn [try_layouts].
  destruct (time_Parse "2006-01-02" m); [done|].
  destruct (time_Parse "02-01-2006" m); [discriminate|].
  destruct (time_Parse "2006/01/02" m); [discriminate|]. done.
Qed.

Lemma dateLayouts_two_entries_never_used_witness :
  try_layouts dateLayouts "20201225"
  = try_layouts ["2006-01-02"; "02/01/2006"; "20060102"; "060102"] "20201225"
  /\ is_ok (time_Parse "02-01-2006" "20201225") = false
  /\ is_ok (time_Parse "2006/01/02" "20201225") = false.
Proof.
  apply (dateLayouts_two_entries_never_used "trip_20201225.jpg" "20201225"). reflexivity.
Defined.

End Unicode.

(** * The model at work, with a case table *)

Example classify_lowers_extension : classify demo_table "x/y.JPG" = Image /\ classify demo_table "x/y.Mp4" = Video /\ classify demo_table "x/y.txt" = Unsupported.
Proof. repeat split; reflexivity. Qed.

(** An extension with a letter outside ASCII: the Kelvin sign U+212A
    lowers to [k], so the file is a video for the program. *)
Example classify_lowers_beyond_ascii :
  let file := "src/g.m" +:+ EncodeRune 8490 +:+ "v" in
  is_ascii file = false
  /\ filepath_Ext file = ".m" +:+ EncodeRune 8490 +:+ "v"
  /\ strings_ToLower demo_table (filepath_Ext file) = ".mkv"
  /\ classify demo_table file = Video.
Proof. repeat split; vm_compute; reflexivity. Qed.

(** A byte that is not UTF-8 is lowered to U+FFFD. *)
Example ToLower_invalid_byte :
  strings_ToLower demo_table (String (char_of 255) ".MP4") = EncodeRune RuneError +:+ ".mp4"
  /\ classify demo_table (String (char_of 255) ".MP4") = Video.
Proof. split; vm_compute; reflexivity. Qed.

Abbreviation demo_run w :=
  (ProcessFiles demo_table simple_Join simple_Rel in_order by_key "src" "dst" 4 w).

(** The scenario of the specification: of two copies one is placed, and
    equal sizes make the second video a duplicate. *)
Example demo_run_outcome :
  fst (demo_run demo_world)
  = Finished (mkSummary 4 2 2 0 0 0 2 1 1)
      [ (mkImageInfo 7 "src/img1.jpg" "2022-03-04", Placed "001.jpg");
        (mkImageInfo 9 "src/sub/IMG_0003.JPG" "2022-03-04", Placed "002.JPG");
        (mkImageInfo 5000 "src/a.mp4" "2021-07-08", Placed "001.mp4") ]
  /\ dest (snd (demo_run demo_world)) !! "dst/2022-03-04/002.JPG"
     = Some (CopyOf "src/sub/IMG_0003.JPG")
  /\ ledgers (snd (demo_run demo_world)) !! "dst/2022-03-04/index.json"
     = Some (IdxObject ({[ "sub/IMG_0003.JPG" := "002.JPG" ]} ∪ ({[ "img1.jpg" := "001.jpg" ]} ∪ ∅))).
Proof. repeat split; vm_compute; reflexivity. Qed.

(** ** The theorems of the run at concrete inputs *)

Lemma summary_counters_consistent_witness :
  summary_consistent (mkSummary 4 2 2 0 0 0 2 1 1)
  /\ filepath_Walk (disk demo_world (clock demo_world)) "src" <> Ok [].
Proof.
  apply (summary_counters_consistent demo_table simple_Join simple_Rel in_order by_key
           "src" "dst" 4 demo_world (mkSummary 4 2 2 0 0 0 2 1 1)
           [ (mkImageInfo 7 "src/img1.jpg" "2022-03-04", Placed "001.jpg");
             (mkImageInfo 9 "src/sub/IMG_0003.JPG" "2022-03-04", Placed "002.JPG");
             (mkImageInfo 5000 "src/a.mp4" "2021-07-08", Placed "001.mp4") ]).
  - intros l. reflexivity.
  - intros m. reflexivity.
  - intros fileList Hwalk. vm_compute in Hwalk. injection Hwalk as <-. reflexivity.
  - vm_compute. reflexivity.
Defined.

Lemma allocated_names_are_consecutive_witness :
  "002.JPG" = pad 3 (uint64 (Z.of_nat 1 + 1)) +:+ filepath_Ext "src/sub/IMG_0003.JPG"
  /\ isoDate (mkImageInfo 9 "src/sub/IMG_0003.JPG" "2022-03-04") = "2022-03-04".
Proof.
  apply (allocated_names_are_consecutive demo_table simple_Join simple_Rel in_order by_key
           "src" "dst" 4 demo_world (mkSummary 4 2 2 0 0 0 2 1 1)
           [ (mkImageInfo 7 "src/img1.jpg" "2022-03-04", Placed "001.jpg");
             (mkImageInfo 9 "src/sub/IMG_0003.JPG" "2022-03-04", Placed "002.JPG");
             (mkImageInfo 5000 "src/a.mp4" "2021-07-08", Placed "001.mp4") ]
           "2022-03-04" 1 (mkImageInfo 9 "src/sub/IMG_0003.JPG" "2022-03-04")
           (Placed "002.JPG") "002.JPG").
  - vm_compute. reflexivity.
  - vm_compute. reflexivity.
  - reflexivity.
Defined.

Lemma allocated_name_keeps_extension_witness :
  exists n,
    "002.JPG" = pad 3 n +:+ ".JPG"
    /\ (strings_ToLower demo_table ".JPG" <> ".JPG" -> "002.JPG" <> pad 3 n +:+ strings_ToLower demo_table ".JPG")
    /\ (SupportedImageFormats (strings_ToLower demo_table ".JPG")
        || SupportedRawFormats (strings_ToLower demo_table ".JPG")
        || SupportedVideoFormats (strings_ToLower demo_table ".JPG") = true).
Proof.
  apply (allocated_name_keeps_extension demo_table simple_Join simple_Rel in_order by_key
           "src" "dst" 4 demo_world (mkSummary 4 2 2 0 0 0 2 1 1)
           [ (mkImageInfo 7 "src/img1.jpg" "2022-03-04", Placed "001.jpg");
             (mkImageInfo 9 "src/sub/IMG_0003.JPG" "2022-03-04", Placed "002.JPG");
             (mkImageInfo 5000 "src/a.mp4" "2021-07-08", Placed "001.mp4") ]
           (mkImageInfo 9 "src/sub/IMG_0003.JPG" "2022-03-04") (Placed "002.JPG") "002.JPG").
  - intros m. reflexivity.
  - vm_compute. reflexivity.
  - apply list_elem_of_further, list_elem_of_here.
  - reflexivity.
Defined.

(** C6 as it is written fails: when the first copy into a directory
    fails, the only file placed there is named 002. *)
Lemma placed_names_skip_a_number :
  exists s tr,
    fst (demo_run flaky_world) = Finished s tr
    /\ placed_in "2022-03-04" tr = ["002.JPG"]
    /\ dest (snd (demo_run flaky_world)) !! "dst/2022-03-04/001.jpg" = None
    /\ dest (snd (demo_run flaky_world)) !! "dst/2022-03-04/002.JPG"
       = Some (CopyOf "src/sub/IMG_0003.JPG")
    /\ ~ placed_without_gaps tr.
Proof.
  eexists _, _. split; [vm_compute; reflexivity|].
  split; [vm_compute; reflexivity|].
  split; [vm_compute; reflexivity|].
  split; [vm_compute; reflexivity|].
  intros Hclaim. destruct (Hclaim "2022-03-04") as [exts Hexts].
  vm_compute in Hexts.
  destruct exts as [|e [|e' exts]]; discriminate.
Qed.

Lemma classify_ignores_case_witness :
  classify demo_table (strings_ToLower demo_table "Src/Sub/IMG_0003.JPG") = classify demo_table "Src/Sub/IMG_0003.JPG"
  /\ filepath_Ext (strings_ToLower demo_table "Src/Sub/IMG_0003.JPG")
     = strings_ToLower demo_table (filepath_Ext "Src/Sub/IMG_0003.JPG").
Proof. apply (classify_ignores_case demo_table "Src/Sub/IMG_0003.JPG"). reflexivity. Defined.

Lemma placeOne_skip_changes_nothing_witness :
  let w := start (steady no_disk) in
  let fileInfo := mkImageInfo 7 "src/img1.jpg" "2022-03-04" in
  let c := mkCounters ∅ 0 0 0 in
  c = c
  /\ dest (snd (placeOne demo_table simple_Join simple_Rel "src" "dst" c fileInfo w)) = dest w
  /\ ledgers (snd (placeOne demo_table simple_Join simple_Rel "src" "dst" c fileInfo w)) = ledgers w
  /\ (NoDirectory = NoDirectory
      <-> os_MkdirAll (disk w (clock w)) (simple_Join "dst" (isoDate fileInfo)) = false).
Proof.
  intros w fileInfo c.
  apply (placeOne_skip_changes_nothing demo_table simple_Join simple_Rel "src" "dst" c c fileInfo
           NoDirectory w); reflexivity.
Defined.

Lemma ProcessFiles_without_work_writes_nothing_witness :
  let out := ProcessFiles demo_table simple_Join simple_Rel in_order by_key "src" "dst" 0 demo_world in
  (forall s tr, fst out <> Finished s tr)
  /\ dest (snd out) = dest demo_world
  /\ ledgers (snd out) = ledgers demo_world
  /\ (forall e, filepath_Walk (disk demo_world (clock demo_world)) "src" = Err e ->
                fst out = WalkFailed e)
  /\ (filepath_Walk (disk demo_world (clock demo_world)) "src" = Ok [] -> fst out = NoFiles).
Proof.
  apply (ProcessFiles_without_work_writes_nothing demo_table simple_Join simple_Rel in_order by_key
           "src" "dst" 0 demo_world).
  right. right. lia.
Defined.

Lemma ProcessFiles_places_listed_files_once_witness :
  let tr := [ (mkImageInfo 7 "src/img1.jpg" "2022-03-04", Placed "001.jpg");
              (mkImageInfo 9 "src/sub/IMG_0003.JPG" "2022-03-04", Placed "002.JPG");
              (mkImageInfo 5000 "src/a.mp4" "2021-07-08", Placed "001.mp4") ] in
  filename <$> tr.*1 ⊆+ fst <$> demo_files
  /\ NoDup (hash <$> tr.*1)
  /\ (NoDup (fst <$> demo_files) -> NoDup (filename <$> tr.*1)).
Proof.
  intros tr.
  apply (ProcessFiles_places_listed_files_once demo_table simple_Join simple_Rel in_order by_key
           "src" "dst" 4 demo_world (mkSummary 4 2 2 0 0 0 2 1 1) tr).
  - intros l. reflexivity.
  - intros m. reflexivity.
  - reflexivity.
  - vm_compute. reflexivity.
Defined.

Lemma summary_counts_what_happened_witness :
  let tr := [ (mkImageInfo 7 "src/img1.jpg" "2022-03-04", Placed "001.jpg");
              (mkImageInfo 9 "src/sub/IMG_0003.JPG" "2022-03-04", Placed "002.JPG");
              (mkImageInfo 5000 "src/a.mp4" "2021-07-08", Placed "001.mp4") ] in
  let s := mkSummary 4 2 2 0 0 0 2 1 1 in
  s_imageCount s = Z.of_nat (count_class demo_table Image (fst <$> demo_files))
  /\ s_rawCount s = Z.of_nat (count_class demo_table Raw (fst <$> demo_files))
  /\ s_videoCount s = Z.of_nat (count_class demo_table Video (fst <$> demo_files))
  /\ s_imageCopied s = Z.of_nat (placed_count demo_table Image tr)
  /\ s_rawCopied s = Z.of_nat (placed_count demo_table Raw tr)
  /\ s_videoCopied s = Z.of_nat (placed_count demo_table Video tr).
Proof.
  intros tr s.
  apply (summary_counts_what_happened demo_table simple_Join simple_Rel in_order by_key
           "src" "dst" 4 demo_world s tr).
  - intros l. reflexivity.
  - reflexivity.
  - reflexivity.
  - reflexivity.
  - vm_compute. reflexivity.
Defined.

Lemma placed_means_copied_and_recorded_witness :
  let fileInfo := mkImageInfo 7 "src/img1.jpg" "2022-03-04" in
  let c := mkCounters ∅ 0 0 0 in
  let w' := snd (placeOne demo_table simple_Join simple_Rel "src" "dst" c fileInfo demo_world) in
  "001.jpg" = name_for c fileInfo
  /\ dest w' !! simple_Join (simple_Join "dst" "2022-03-04") "001.jpg"
     = Some (CopyOf "src/img1.jpg")
  /\ exists relPath m,
       simple_Rel "src" "src/img1.jpg" = Ok relPath
       /\ ledgers w' !! simple_Join (simple_Join "dst" "2022-03-04") "index.json"
          = Some (IdxObject m)
       /\ is_Some (m !! json_string relPath)
       /\ (json_string relPath = relPath -> json_string "001.jpg" = "001.jpg" ->
           (forall existing,
              ledgers demo_world !! simple_Join (simple_Join "dst" "2022-03-04") "index.json"
              = Some (IdxObject existing) -> valid_strings existing) ->
           m !! relPath = Some "001.jpg").
Proof.
  intros fileInfo c.
  apply (placed_means_copied_and_recorded demo_table simple_Join simple_Rel "src" "dst" c
           (count_copied demo_table (bump c fileInfo) "src/img1.jpg") fileInfo "001.jpg"
           demo_world).
  vm_compute. reflexivity.
Defined.
